(** * VideoPixar: request construction and long-running-operation driver

    A shallow embedding of [services/geminiService.ts] ([generateVideo],
    [enhancePrompt]) and of the [handleEnhance] callback of
    [components/PromptForm.tsx].

    - JavaScript strings are modelled as [string] (sequences of 8-bit code
      units); only emptiness, concatenation and whitespace trimming matter.
    - An optional or nullable field is an [option]; JavaScript truthiness is
      written out ([truthy], [is_done]).
    - [throw new Error(msg)] is the [Throw] outcome carrying the message.
    - The remote service is an explicit state that every call threads, next
      to a chronological log of the calls made. *)

From Stdlib Require Import String Ascii List NArith Arith Bool Lia.
From Stdlib Require Import DecimalString.
From Equations Require Import Equations.
From Equations.Prop Require Import Logic.
Import ListNotations.
Open Scope string_scope.
Open Scope list_scope.

(** ** Enumerations of [types.ts] *)

Inductive GenerationMode :=
| TEXT_TO_VIDEO
| FRAMES_TO_VIDEO
| REFERENCES_TO_VIDEO
| EXTEND_VIDEO.

(** [VeoModel.VEO] is the full model ['veo-3.1-generate-preview'],
    [VeoModel.VEO_FAST] the fast variant. *)
Inductive VeoModel := VEO_FAST | VEO.

Inductive AspectRatio := LANDSCAPE | PORTRAIT.

Inductive Resolution := P720 | P1080.

Definition mode_eqb (a b : GenerationMode) : bool :=
  match a, b with
  | TEXT_TO_VIDEO, TEXT_TO_VIDEO
  | FRAMES_TO_VIDEO, FRAMES_TO_VIDEO
  | REFERENCES_TO_VIDEO, REFERENCES_TO_VIDEO
  | EXTEND_VIDEO, EXTEND_VIDEO => true
  | _, _ => false
  end.

(** ** Records *)

(** The two properties of a DOM [File] that the service reads. *)
Record File := { file_name : string; file_type : string }.

Record ImageFile := { file : File; base64 : string }.

Record VideoFile := { vf_file : File; vf_base64 : string }.

(** [Video] of [@google/genai]: every property is optional. *)
Record Video := {
  uri : option string;
  videoBytes : option string;
  video_mimeType : option string
}.

Record GenerateVideoParams := {
  prompt : string;
  model : VeoModel;
  aspectRatio : AspectRatio;
  resolution : Resolution;
  mode : GenerationMode;
  startFrame : option ImageFile;
  endFrame : option ImageFile;
  referenceImages : option (list ImageFile);
  styleImage : option ImageFile;
  inputVideo : option VideoFile;
  inputVideoObject : option Video;
  isLooping : bool
}.

Record Image := { imageBytes : string; mimeType : string }.

Inductive VideoGenerationReferenceType := ASSET | STYLE.

Record VideoGenerationReferenceImage := {
  image : Image;
  referenceType : VideoGenerationReferenceType
}.

Record VideoGenerationConfig := {
  numberOfVideos : nat;
  cfg_resolution : Resolution;
  cfg_aspectRatio : option AspectRatio;
  cfg_referenceImages : option (list VideoGenerationReferenceImage);
  cfg_lastFrame : option Image
}.

Record GenerateVideosParameters := {
  payload_model : VeoModel;
  payload_config : VideoGenerationConfig;
  payload_prompt : option string;
  payload_image : option Image;
  payload_video : option Video
}.

(** ** Errors and outcomes *)

Record Error := { message : string }.

Inductive outcome (A : Type) :=
| Ok (a : A)
| Throw (e : Error).
Arguments Ok {A} a.
Arguments Throw {A} e.

(** ** JavaScript string helpers *)

(** A string is truthy when it is not empty. *)
Definition truthy (s : string) : bool :=
  match s with
  | EmptyString => false
  | String _ _ => true
  end.

(** WhiteSpace and LineTerminator code units below 256:
    TAB, LF, VT, FF, CR, SP and NBSP. *)
Definition isWhiteSpace (c : ascii) : bool :=
  let n := nat_of_ascii c in
  ((9 <=? n)%nat && (n <=? 13)%nat) || (n =? 32)%nat || (n =? 160)%nat.

Fixpoint trimStart (s : string) : string :=
  match s with
  | EmptyString => EmptyString
  | String c rest => if isWhiteSpace c then trimStart rest else s
  end.

Fixpoint trimEnd (s : string) : string :=
  match s with
  | EmptyString => EmptyString
  | String c rest =>
      match trimEnd rest with
      | EmptyString => if isWhiteSpace c then EmptyString else String c EmptyString
      | kept => String c kept
      end
  end.

(** [String.prototype.trim]. *)
Definition trim (s : string) : string := trimEnd (trimStart s).

(** ** Building the request: [generateVideo], lines 42 to 149 *)

(** The clause appended for an extension that has a target frame (line 79). *)
Definition TRANSITION_SUFFIX : string :=
  ". The video must seamlessly transition from the input video to the provided last frame. Correct any inconsistencies between the input video's end and the target frame so the camera moves in one unified approach to the final frame.".

Definition MSG_INPUT_VIDEO_REQUIRED : string :=
  "An input video object is required to extend a video.".

Definition toImage (img : ImageFile) : Image :=
  {| imageBytes := base64 img; mimeType := file_type (file img) |}.

Definition assetReference (img : ImageFile) : VideoGenerationReferenceImage :=
  {| image := toImage img; referenceType := ASSET |}.

Definition styleReference (img : ImageFile) : VideoGenerationReferenceImage :=
  {| image := toImage img; referenceType := STYLE |}.

(** Lines 63 to 65: the frame the video has to end on. *)
Definition effectiveEndFrame (params : GenerateVideoParams) : option ImageFile :=
  if mode_eqb (mode params) FRAMES_TO_VIDEO && isLooping params
  then startFrame params
  else endFrame params.

(** Lines 54 to 57. *)
Definition selectModel (params : GenerateVideoParams) : VeoModel :=
  match referenceImages params with
  | Some (_ :: _) => VEO
  | _ => model params
  end.

(** Lines 73 to 83. *)
Definition buildPrompt (params : GenerateVideoParams) : option string :=
  if truthy (prompt params) then
    let finalPrompt := prompt params in
    let finalPrompt :=
      match mode_eqb (mode params) EXTEND_VIDEO, effectiveEndFrame params with
      | true, Some _ => (finalPrompt ++ TRANSITION_SUFFIX)%string
      | _, _ => finalPrompt
      end in
    Some finalPrompt
  else None.

(** Lines 86 to 118. *)
Definition buildReferenceImages (params : GenerateVideoParams)
  : option (list VideoGenerationReferenceImage) :=
  if mode_eqb (mode params) REFERENCES_TO_VIDEO
     || mode_eqb (mode params) EXTEND_VIDEO
  then
    let referenceImagesPayload :=
      match referenceImages params with
      | Some imgs => map assetReference imgs
      | None => []
      end in
    let referenceImagesPayload :=
      match styleImage params with
      | Some img => referenceImagesPayload ++ [styleReference img]
      | None => referenceImagesPayload
      end in
    match referenceImagesPayload with
    | [] => None
    | _ :: _ => Some referenceImagesPayload
    end
  else None.

(** Lines 121 to 129. *)
Definition buildLastFrame (params : GenerateVideoParams) : option Image :=
  match effectiveEndFrame params with
  | Some frame =>
      if mode_eqb (mode params) FRAMES_TO_VIDEO
         || mode_eqb (mode params) EXTEND_VIDEO
      then Some (toImage frame)
      else None
  | None => None
  end.

(** Lines 42 to 50, with the two fields that lines 116 and 123 set later. *)
Definition buildConfig (params : GenerateVideoParams) : VideoGenerationConfig :=
  {| numberOfVideos := 1;
     cfg_resolution := resolution params;
     cfg_aspectRatio :=
       if mode_eqb (mode params) EXTEND_VIDEO then None
       else Some (aspectRatio params);
     cfg_referenceImages := buildReferenceImages params;
     cfg_lastFrame := buildLastFrame params |}.

(** The whole payload; lines 132 to 149 choose the primary media and
    reject an extension that has no video object. *)
Definition buildPayload (params : GenerateVideoParams)
  : outcome GenerateVideosParameters :=
  let base img vid :=
    {| payload_model := selectModel params;
       payload_config := buildConfig params;
       payload_prompt := buildPrompt params;
       payload_image := img;
       payload_video := vid |} in
  match mode params with
  | FRAMES_TO_VIDEO => Ok (base (option_map toImage (startFrame params)) None)
  | EXTEND_VIDEO =>
      match inputVideoObject params with
      | Some videoObject => Ok (base None (Some videoObject))
      | None => Throw {| message := MSG_INPUT_VIDEO_REQUIRED |}
      end
  | _ => Ok (base None None)
  end.

(** The builder as its caller sees it: the outcome, and the parameter
    object as the call leaves it.  Lines 42 to 149 read [params] and assign
    only to the locals [config], [model], [endFrame], [finalPrompt],
    [referenceImagesPayload] and [generateVideoPayload]; no statement writes
    a property of [params]. *)
Definition buildRequest (params : GenerateVideoParams)
  : outcome GenerateVideosParameters * GenerateVideoParams :=
  (buildPayload params, params).

(** ** What the remote service returns *)

Record GeneratedVideo := { video : option Video }.

Record GenerateVideosResponse := {
  generatedVideos : option (list GeneratedVideo)
}.

(** [GenerateVideosOperation]: a job handle. *)
Record Operation := {
  op_name : option string;
  done : option bool;
  response : option GenerateVideosResponse
}.

(** [!operation.done] is false only for [done: true]. *)
Definition is_done (operation : Operation) : bool :=
  match done operation with
  | Some true => true
  | _ => false
  end.

Definition Blob := string.

(** A [fetch] response; [ok] is derived from the status as the Fetch
    standard defines it. *)
Record Response := { status : N; statusText : string; body : Blob }.

Definition ok (res : Response) : bool :=
  (200 <=? status res)%N && (status res <=? 299)%N.

Record GenerateContentResponse := { text : option string }.

(** What [generateVideo] resolves to. *)
Record GenerationResult := {
  objectUrl : string;
  blob : Blob;
  result_uri : string;
  result_video : Video
}.

(** ** Template literals *)

(** [`${n}`] for a non-negative integer. *)
Definition showNumber (n : N) : string := NilEmpty.string_of_uint (N.to_uint n).

(** [`${s}`] for [s : string | undefined]. *)
Definition showOptional (s : option string) : string :=
  match s with
  | Some v => v
  | None => "undefined"
  end.

(** ** Calls that leave the program *)

Inductive Event :=
| CallGenerateVideos (payload : GenerateVideosParameters)
| CallSetTimeout (ms : N)
| CallGetVideosOperation (operation : Operation)
| CallFetch (url : string)
| CallGenerateContent (model_name contents : string).

(** The platform the service runs on: the SDK client, [fetch], and the
    built-ins whose definition is not part of the repository.  Every
    asynchronous call may reject, and may change the state [R] of the
    outside world. *)
Record Platform (R : Type) := {
  sdk_generateVideos : GenerateVideosParameters -> R -> outcome Operation * R;
  sdk_getVideosOperation : Operation -> R -> outcome Operation * R;
  sdk_generateContent : string -> string -> R -> outcome GenerateContentResponse * R;
  net_fetch : string -> R -> outcome Response * R;
  API_KEY : option string;
  decodeURIComponent : string -> outcome string;
  createObjectURL : Blob -> string
}.
Arguments sdk_generateVideos {R}.
Arguments sdk_getVideosOperation {R}.
Arguments sdk_generateContent {R}.
Arguments net_fetch {R}.
Arguments API_KEY {R}.
Arguments decodeURIComponent {R}.
Arguments createObjectURL {R}.

(** The outside world together with the log of the calls made so far,
    oldest first. *)
Record World (R : Type) := { remote : R; calls : list Event }.
Arguments remote {R}.
Arguments calls {R}.

Definition MAX_ATTEMPTS : nat := 60.

(** Iterations the loop condition still allows. *)
Definition attemptsLeft (attempts : nat) : nat := MAX_ATTEMPTS - attempts.
Arguments attemptsLeft : simpl never.

Definition MSG_TIMEOUT : string :=
  "Video generation timed out after 10 minutes. Please try again.".

Definition MSG_NO_VIDEOS_RETURNED : string :=
  "Video generation completed but no videos were returned. This may indicate an issue with the API or the request parameters.".

Definition MSG_MISSING_URI : string := "Generated video is missing a URI.".

Definition MSG_NO_RESPONSE : string := "No videos generated.".

Definition fetchFailureMessage (res : Response) : string :=
  ("Failed to fetch video: " ++ showNumber (status res) ++ " " ++ statusText res)%string.

(** The instruction wrapped around the prompt by [enhancePrompt] (line 206). *)
Definition enhanceTemplate (prompt : string) : string :=
  ("You are an expert prompt engineer for video generation AI. Rewrite the following user prompt to be more descriptive, visual, and detailed to produce a high-quality video. Focus on lighting, camera angles, texture, and motion. Keep it concise (max 3 sentences). Output ONLY the enhanced prompt.

    User Prompt: " ++ prompt)%string.

Section Service.

Context {R : Type} (P : Platform R).

(** A computation: it reads and writes the world and either returns or
    throws. *)
Definition M (A : Type) : Type := World R -> outcome A * World R.

Definition ret {A} (a : A) : M A := fun w => (Ok a, w).

Definition throw {A} (msg : string) : M A :=
  fun w => (Throw {| message := msg |}, w).

Definition bind {A B} (m : M A) (k : A -> M B) : M B :=
  fun w =>
    match m w with
    | (Ok a, w') => k a w'
    | (Throw e, w') => (Throw e, w')
    end.

Definition lift {A} (r : outcome A) : M A := fun w => (r, w).

(** One call to the outside: log it, then let the world answer. *)
Definition external {A} (ev : Event) (f : R -> outcome A * R) : M A :=
  fun w =>
    let (r, s) := f (remote w) in
    (r, {| remote := s; calls := calls w ++ [ev] |}).

Definition generateVideos (payload : GenerateVideosParameters) : M Operation :=
  external (CallGenerateVideos payload) (sdk_generateVideos P payload).

Definition getVideosOperation (operation : Operation) : M Operation :=
  external (CallGetVideosOperation operation) (sdk_getVideosOperation P operation).

Definition fetch (url : string) : M Response :=
  external (CallFetch url) (net_fetch P url).

Definition generateContent (model_name contents : string) : M GenerateContentResponse :=
  external (CallGenerateContent model_name contents)
           (sdk_generateContent P model_name contents).

(** [await new Promise((resolve) => setTimeout(resolve, ms))]. *)
Definition sleep (ms : N) : M unit :=
  external (CallSetTimeout ms) (fun s => (Ok tt, s)).

End Service.

Notation "x <- m ;; k" := (bind m (fun x => k))
  (at level 61, m at next level, right associativity).
Notation "m ;;; k" := (bind m (fun _ => k))
  (at level 61, right associativity).

Section Pipeline.

Context {R : Type} (P : Platform R).

(** *** The polling loop, lines 155 to 163

    [while (!operation.done && attempts < MAX_ATTEMPTS)]: the distance of
    [attempts] to the cap decreases with every iteration. *)
Equations? pollLoop (attempts : nat) (operation : Operation) (w : World R)
  : outcome Operation * World R by wf (attemptsLeft attempts) lt :=
  pollLoop attempts operation w with inspect (negb (is_done operation) && (attempts <? MAX_ATTEMPTS)%nat) := {
    | exist _ true Hcond
        with (sleep 10000 ;;; getVideosOperation P operation) w := {
        | (Ok operation', w') => pollLoop (S attempts) operation' w';
        | (Throw e, w') => (Throw e, w') };
    | exist _ false _ => (Ok operation, w) }.
Proof.
  apply andb_prop in Hcond as [_ Hlt].
  apply Nat.ltb_lt in Hlt. unfold attemptsLeft. lia.
Qed.

(** *** Resolving the finished operation, lines 169 to 198 *)

(** Lines 182 to 194: download the video behind a locator. *)
Definition download (videoObject : Video) (locator : string) : M (R:=R) GenerationResult :=
  url <- lift (decodeURIComponent P locator) ;;
  res <- fetch P (url ++ "&key=" ++ showOptional (API_KEY P))%string ;;
  if negb (ok res) then throw (fetchFailureMessage res)
  else
    let videoBlob := body res in
    ret {| objectUrl := createObjectURL P videoBlob;
           blob := videoBlob;
           result_uri := url;
           result_video := videoObject |}.

(** Lines 169 to 180 and 195 to 198: find the first video and its
    locator.  [!firstVideo?.video?.uri] also rejects an empty locator. *)
Definition locate (operation : Operation) : outcome (Video * string) :=
  match response operation with
  | Some resp =>
      match generatedVideos resp with
      | None | Some [] => Throw {| message := MSG_NO_VIDEOS_RETURNED |}
      | Some (firstVideo :: _) =>
          match video firstVideo with
          | Some videoObject =>
              match uri videoObject with
              | Some locator =>
                  if truthy locator then Ok (videoObject, locator)
                  else Throw {| message := MSG_MISSING_URI |}
              | None => Throw {| message := MSG_MISSING_URI |}
              end
          | None => Throw {| message := MSG_MISSING_URI |}
          end
      end
  | None => Throw {| message := MSG_NO_RESPONSE |}
  end.

Definition resolve (operation : Operation) : M (R:=R) GenerationResult :=
  found <- lift (locate operation) ;;
  download (fst found) (snd found).

(** *** [generateVideo] *)

Definition generateVideo (params : GenerateVideoParams) : M (R:=R) GenerationResult :=
  generateVideoPayload <- lift (buildPayload params) ;;
  operation <- generateVideos P generateVideoPayload ;;
  operation <- pollLoop 0 operation ;;
  if negb (is_done operation) then throw MSG_TIMEOUT
  else resolve operation.

(** *** [enhancePrompt], lines 201 to 211 *)

(** [response.text || prompt]. *)
Definition textOr (t : option string) (fallback : string) : string :=
  match t with
  | Some s => if truthy s then s else fallback
  | None => fallback
  end.

Definition enhancePrompt (prompt : string) : M (R:=R) string :=
  response <- generateContent P "gemini-2.5-flash" (enhanceTemplate prompt) ;;
  ret (textOr (text response) prompt).

(** *** [handleEnhance] of [PromptForm.tsx], lines 177 to 188 *)

(** The two pieces of form state the handler touches. *)
Record FormState := { form_prompt : string; isEnhancing : bool }.

Definition handleEnhance (st : FormState) (w : World R) : FormState * World R :=
  if negb (truthy (trim (form_prompt st))) then (st, w)
  else
    (* setIsEnhancing(true) *)
    match enhancePrompt (form_prompt st) w with
    | (Ok enhanced, w') =>
        (* setPrompt(enhanced), then the finally block *)
        ({| form_prompt := enhanced; isEnhancing := false |}, w')
    | (Throw _, w') =>
        (* console.error(...), then the finally block *)
        ({| form_prompt := form_prompt st; isEnhancing := false |}, w')
    end.

End Pipeline.

(** ** Vocabulary of the specification *)

(** The log of re-polling each handle of [polled] once: a 10 000 ms wait,
    then the status request. *)
Definition waitPollLog (polled : list Operation) : list Event :=
  flat_map (fun operation =>
              [CallSetTimeout 10000; CallGetVideosOperation operation]) polled.

(** Status requests in a log. *)
Definition pollCount (log : list Event) : nat :=
  length (filter (fun ev => match ev with
                            | CallGetVideosOperation _ => true
                            | _ => false
                            end) log).

(** Waits in a log. *)
Definition waitCount (log : list Event) : nat :=
  length (filter (fun ev => match ev with
                            | CallSetTimeout _ => true
                            | _ => false
                            end) log).

(** The first video of a response has no usable locator. *)
Definition lacksLocator (firstVideo : GeneratedVideo) : Prop :=
  video firstVideo = None \/
  exists videoObject,
    video firstVideo = Some videoObject /\
    (uri videoObject = None \/ uri videoObject = Some EmptyString).

(** A status outside 200..299. *)
Definition non2xx (res : Response) : Prop :=
  (status res < 200)%N \/ (299 < status res)%N.

Section Observations.

Context {R : Type} (P : Platform R).

(** [n] unconditional re-polls of a handle, each after its wait: what the
    service would report, whether or not the driver goes on asking. *)
Fixpoint repoll (n : nat) (operation : Operation) : M (R:=R) Operation :=
  match n with
  | O => ret operation
  | S n' =>
      operation' <- (sleep 10000 ;;; getVideosOperation P operation) ;;
      repoll n' operation'
  end.

(** The [i]-th status observation; observation 1 is the handle that the
    submission returned. *)
Definition observation (i : nat) (submitted : Operation) : M (R:=R) Operation :=
  repoll (i - 1) submitted.

(** The [i]-th observation exists and is not done. *)
Definition pendingAt (i : nat) (submitted : Operation) (w : World R) : Prop :=
  exists operation w',
    observation i submitted w = (Ok operation, w') /\
    is_done operation = false.

End Observations.

(** ** A scripted platform for examples *)

Definition hexValue (c : ascii) : option nat :=
  let n := nat_of_ascii c in
  if ((48 <=? n) && (n <=? 57))%nat then Some (n - 48)
  else if ((65 <=? n) && (n <=? 70))%nat then Some (n - 55)
  else if ((97 <=? n) && (n <=? 102))%nat then Some (n - 87)
  else None.

(** Percent-decoding of code units, standing for [decodeURIComponent]
    (which moreover checks that the decoded bytes are UTF-8). *)
Fixpoint percentDecode (s : string) : outcome string :=
  match s with
  | EmptyString => Ok EmptyString
  | String c rest =>
      if Ascii.eqb c "%" then
        match rest with
        | String h (String l rest') =>
            match hexValue h, hexValue l, percentDecode rest' with
            | Some a, Some b, Ok decoded =>
                Ok (String (ascii_of_nat (16 * a + b)) decoded)
            | _, _, _ => Throw {| message := "URI malformed" |}
            end
        | _ => Throw {| message := "URI malformed" |}
        end
      else
        match percentDecode rest with
        | Ok decoded => Ok (String c decoded)
        | Throw e => Throw e
        end
  end.

Definition pendingOperation : Operation :=
  {| op_name := Some "operations/1"; done := None; response := None |}.

(** The job reports [finished] from the [readyAfter]-th re-poll on (at once
    for 0); the remote state counts the re-polls answered. *)
Definition scripted (readyAfter : nat) (finished : Operation)
    (served : outcome Response) (answer : outcome GenerateContentResponse)
    (key : option string) : Platform nat :=
  {| sdk_generateVideos := fun _ polls =>
       (Ok (if (readyAfter =? 0)%nat then finished else pendingOperation), polls);
     sdk_getVideosOperation := fun _ polls =>
       (Ok (if (readyAfter <=? S polls)%nat then finished else pendingOperation),
        S polls);
     sdk_generateContent := fun _ _ polls => (answer, polls);
     net_fetch := fun _ polls => (served, polls);
     API_KEY := key;
     decodeURIComponent := percentDecode;
     createObjectURL := fun b => ("blob:" ++ b)%string |}.

Definition startWorld : World nat := {| remote := 0; calls := [] |}.

Definition sampleImage (n : string) : ImageFile :=
  {| file := {| file_name := n; file_type := "image/png" |}; base64 := n |}.

Definition sampleVideo : Video :=
  {| uri := Some "https://example.test/files/abc%3Adownload?alt=media";
     videoBytes := None;
     video_mimeType := Some "video/mp4" |}.

Definition finishedOperation : Operation :=
  {| op_name := Some "operations/1";
     done := Some true;
     response := Some {| generatedVideos := Some [ {| video := Some sampleVideo |} ] |} |}.

Definition okResponse : Response :=
  {| status := 200; statusText := "OK"; body := "bytes" |}.

Definition forbiddenResponse : Response :=
  {| status := 403; statusText := "Forbidden"; body := "" |}.

Definition emptyAnswer : GenerateContentResponse := {| text := Some EmptyString |}.

Definition textParams (p : string) : GenerateVideoParams :=
  {| prompt := p; model := VEO_FAST; aspectRatio := LANDSCAPE;
     resolution := P720; mode := TEXT_TO_VIDEO;
     startFrame := None; endFrame := None; referenceImages := Some [];
     styleImage := None; inputVideo := None; inputVideoObject := None;
     isLooping := false |}.

Definition withMode (m : GenerationMode) (params : GenerateVideoParams)
  : GenerateVideoParams :=
  {| prompt := prompt params; model := model params;
     aspectRatio := aspectRatio params; resolution := resolution params;
     mode := m;
     startFrame := startFrame params; endFrame := endFrame params;
     referenceImages := referenceImages params;
     styleImage := styleImage params; inputVideo := inputVideo params;
     inputVideoObject := inputVideoObject params;
     isLooping := isLooping params |}.

(** An extension of [sampleVideo] towards a target frame. *)
Definition extendParams (p : string) : GenerateVideoParams :=
  {| prompt := p; model := VEO_FAST; aspectRatio := LANDSCAPE;
     resolution := P720; mode := EXTEND_VIDEO;
     startFrame := None; endFrame := Some (sampleImage "end");
     referenceImages := Some [];
     styleImage := None; inputVideo := None;
     inputVideoObject := Some sampleVideo;
     isLooping := false |}.

(** Two reference images and a style image. *)
Definition referenceParams (m : GenerationMode) : GenerateVideoParams :=
  {| prompt := "a fox"; model := VEO_FAST; aspectRatio := LANDSCAPE;
     resolution := P720; mode := m;
     startFrame := None; endFrame := None;
     referenceImages := Some [sampleImage "a"; sampleImage "b"];
     styleImage := Some (sampleImage "s"); inputVideo := None;
     inputVideoObject := None;
     isLooping := false |}.

(** Frames-to-video from a start frame, with a prompt of three spaces (the
    form enables the submit button as soon as there is a start frame), and
    what is built for it. *)
Definition whitespaceParams : GenerateVideoParams :=
  {| prompt := "   "; model := VEO_FAST; aspectRatio := LANDSCAPE;
     resolution := P720; mode := FRAMES_TO_VIDEO;
     startFrame := Some (sampleImage "start"); endFrame := None;
     referenceImages := Some [];
     styleImage := None; inputVideo := None; inputVideoObject := None;
     isLooping := false |}.

Definition whitespacePayload : GenerateVideosParameters :=
  {| payload_model := VEO_FAST;
     payload_config :=
       {| numberOfVideos := 1; cfg_resolution := P720;
          cfg_aspectRatio := Some LANDSCAPE;
          cfg_referenceImages := None; cfg_lastFrame := None |};
     payload_prompt := Some "   ";
     payload_image := Some {| imageBytes := "start"; mimeType := "image/png" |};
     payload_video := None |}.

(** What is built for [extendParams "P"]. *)
Definition extendPayload : GenerateVideosParameters :=
  {| payload_model := VEO_FAST;
     payload_config :=
       {| numberOfVideos := 1; cfg_resolution := P720;
          cfg_aspectRatio := None;
          cfg_referenceImages := None;
          cfg_lastFrame := Some {| imageBytes := "end"; mimeType := "image/png" |} |};
     payload_prompt := Some ("P" ++ TRANSITION_SUFFIX)%string;
     payload_image := None;
     payload_video := Some sampleVideo |}.

(** Three services: one whose job never finishes within the run, one that
    reports the finished job at the second re-poll, one that returns it
    finished from the submission. *)
Definition neverReady : Platform nat :=
  scripted 1000 finishedOperation (Ok okResponse) (Ok emptyAnswer) (Some "KEY").

Definition readyAtThird : Platform nat :=
  scripted 2 finishedOperation (Ok okResponse) (Ok emptyAnswer) (Some "KEY").

Definition readyAtOnce : Platform nat :=
  scripted 0 finishedOperation (Ok okResponse) (Ok emptyAnswer) (Some "KEY").

(** An extension request that lost its video object. *)
Definition orphanExtendParams : GenerateVideoParams :=
  withMode EXTEND_VIDEO (textParams "continue the shot").

(** What is built for [textParams "a fox"], and the world after its
    submission. *)
Definition foxPayload : GenerateVideosParameters :=
  {| payload_model := VEO_FAST;
     payload_config :=
       {| numberOfVideos := 1; cfg_resolution := P720;
          cfg_aspectRatio := Some LANDSCAPE;
          cfg_referenceImages := None; cfg_lastFrame := None |};
     payload_prompt := Some "a fox";
     payload_image := None;
     payload_video := None |}.

Definition submittedWorld : World nat :=
  {| remote := 0; calls := [CallGenerateVideos foxPayload] |}.

(** A text service that is down. *)
Definition serviceUnavailable : Error := {| message := "503 Service Unavailable" |}.

Definition enhancerDown : Platform nat :=
  scripted 0 finishedOperation (Ok okResponse) (Throw serviceUnavailable) (Some "KEY").

(** A download service that refuses the request. *)
Definition downloadForbidden : Platform nat :=
  scripted 0 finishedOperation (Ok forbiddenResponse) (Ok emptyAnswer) (Some "KEY").

(** The locator of [sampleVideo], percent-decoded. *)
Definition sampleUrl : string := "https://example.test/files/abc:download?alt=media".

(** The reading of rule 4 for every prompt: a built payload carries the
    prompt followed by the transition clause. *)
Definition promptIsSuffixed (params : GenerateVideoParams) : Prop :=
  forall payload,
    buildPayload params = Ok payload ->
    payload_prompt payload
    = Some (prompt params ++ ". The video must seamlessly transition from the input video to the provided last frame. Correct any inconsistencies between the input video's end and the target frame so the camera moves in one unified approach to the final frame.")%string.

(** What is built for [extendParams ""]. *)
Definition emptyExtendPayload : GenerateVideosParameters :=
  {| payload_model := VEO_FAST;
     payload_config :=
       {| numberOfVideos := 1; cfg_resolution := P720;
          cfg_aspectRatio := None;
          cfg_referenceImages := None;
          cfg_lastFrame := Some {| imageBytes := "end"; mimeType := "image/png" |} |};
     payload_prompt := None;
     payload_image := None;
     payload_video := Some sampleVideo |}.

(** The reading of rule 5 with trimming: a built payload has a prompt field
    exactly when the trimmed prompt is not empty. *)
Definition promptFieldIffTrimmedNonEmpty (params : GenerateVideoParams) : Prop :=
  forall payload,
    buildPayload params = Ok payload ->
    (payload_prompt payload <> None <-> trim (prompt params) <> EmptyString).

(** The user's reference images, none when the field is absent. *)
Definition userReferences (params : GenerateVideoParams) : list ImageFile :=
  match referenceImages params with
  | Some imgs => imgs
  | None => []
  end.

(** The style image as a list of zero or one entry. *)
Definition styleEntry (params : GenerateVideoParams)
  : list VideoGenerationReferenceImage :=
  match styleImage params with
  | Some img => [styleReference img]
  | None => []
  end.

(** A list as an optional field: omitted when empty. *)
Definition omitEmpty {A} (l : list A) : option (list A) :=
  match l with
  | [] => None
  | _ :: _ => Some l
  end.

(** ** The rest of the form: [components/PromptForm.tsx] *)

(** [String.prototype.toLowerCase] on one code unit below 256: the Latin
    capitals A to Z, and U+00C0 to U+00DE without the multiplication sign. *)
Definition toLowerCaseUnit (c : ascii) : ascii :=
  let n := nat_of_ascii c in
  if ((65 <=? n) && (n <=? 90))%nat
     || ((192 <=? n) && (n <=? 222) && negb (n =? 215))%nat
  then ascii_of_nat (n + 32)
  else c.

Fixpoint toLowerCase (s : string) : string :=
  match s with
  | EmptyString => EmptyString
  | String c rest => String (toLowerCaseUnit c) (toLowerCase rest)
  end.

(** [s.includes(sub)]. *)
Fixpoint includes (s sub : string) : bool :=
  if String.prefix sub s then true
  else
    match s with
    | EmptyString => false
    | String _ rest => includes rest sub
    end.

(** Every code unit is white space. *)
Fixpoint isBlank (s : string) : bool :=
  match s with
  | EmptyString => true
  | String c rest => isWhiteSpace c && isBlank rest
  end.

Definition LF : string := String "010"%char EmptyString.

(** What [PromptForm] keeps with [useState], the prompt and the media. *)
Record PromptFormState := {
  st_prompt : string;
  st_model : VeoModel;
  st_aspectRatio : AspectRatio;
  st_resolution : Resolution;
  st_generationMode : GenerationMode;
  st_startFrame : option ImageFile;
  st_endFrame : option ImageFile;
  st_referenceImages : list ImageFile;
  st_styleImage : option ImageFile;
  st_inputVideo : option VideoFile;
  st_inputVideoObject : option Video;
  st_isLooping : bool
}.

(** [handleSubmit], lines 142 to 175: the parameter set handed to
    [onGenerate]. *)
Definition handleSubmit (st : PromptFormState) : GenerateVideoParams :=
  {| prompt := st_prompt st;
     model := st_model st;
     aspectRatio := st_aspectRatio st;
     resolution := st_resolution st;
     mode := st_generationMode st;
     startFrame := st_startFrame st;
     endFrame := st_endFrame st;
     referenceImages := Some (st_referenceImages st);
     styleImage := st_styleImage st;
     inputVideo := st_inputVideo st;
     inputVideoObject := st_inputVideoObject st;
     isLooping := st_isLooping st |}.

Definition setPrompt (p : string) (st : PromptFormState) : PromptFormState :=
  {| st_prompt := p;
     st_model := st_model st;
     st_aspectRatio := st_aspectRatio st;
     st_resolution := st_resolution st;
     st_generationMode := st_generationMode st;
     st_startFrame := st_startFrame st;
     st_endFrame := st_endFrame st;
     st_referenceImages := st_referenceImages st;
     st_styleImage := st_styleImage st;
     st_inputVideo := st_inputVideo st;
     st_inputVideoObject := st_inputVideoObject st;
     st_isLooping := st_isLooping st |}.

(** The updater of [addKeyword], lines 190 to 197. *)
Definition addKeywordTo (keyword prev : string) : string :=
  let trimmed := trim prev in
  if negb (truthy trimmed) then keyword
  else if includes (toLowerCase trimmed) (toLowerCase keyword) then prev
  else (trimmed ++ ", " ++ keyword)%string.

Definition addKeyword (keyword : string) (st : PromptFormState) : PromptFormState :=
  setPrompt (addKeywordTo keyword (st_prompt st)) st.

(** [Character] of [types.ts], as [CharacterManager] builds it. *)
Record Character := {
  char_id : string;
  char_name : string;
  char_description : string;
  avatar : option ImageFile
}.

Definition charDescription (char : Character) : string :=
  ("Character: " ++ char_name char ++ " (" ++ char_description char ++ ")")%string.

(** [handleCharacterSelect], lines 199 to 214: the state its setters leave.
    The effect that a change of mode triggers is [modeEffect]; the form as
    it is once that effect has run is [selectCharacter]. *)
Definition handleCharacterSelect (char : Character) (st : PromptFormState)
  : PromptFormState :=
  let trimmed := trim (st_prompt st) in
  let newPrompt :=
    if truthy trimmed then (trimmed ++ LF ++ LF ++ charDescription char)%string
    else charDescription char in
  match avatar char with
  | Some img =>
      {| st_prompt := newPrompt;
         st_model := st_model st;
         st_aspectRatio := st_aspectRatio st;
         st_resolution := st_resolution st;
         st_generationMode :=
           if mode_eqb (st_generationMode st) TEXT_TO_VIDEO
           then REFERENCES_TO_VIDEO
           else st_generationMode st;
         st_startFrame := st_startFrame st;
         st_endFrame := st_endFrame st;
         st_referenceImages := st_referenceImages st ++ [img];
         st_styleImage := st_styleImage st;
         st_inputVideo := st_inputVideo st;
         st_inputVideoObject := st_inputVideoObject st;
         st_isLooping := st_isLooping st |}
  | None => setPrompt newPrompt st
  end.


(** The effect of lines 123 to 132 ([useEffect] on [generationMode]):
    references-to-video fixes the model, the aspect ratio and the
    resolution, an extension fixes the resolution. *)
Definition modeEffect (st : PromptFormState) : PromptFormState :=
  match st_generationMode st with
  | REFERENCES_TO_VIDEO =>
      {| st_prompt := st_prompt st;
         st_model := VEO;
         st_aspectRatio := LANDSCAPE;
         st_resolution := P720;
         st_generationMode := st_generationMode st;
         st_startFrame := st_startFrame st;
         st_endFrame := st_endFrame st;
         st_referenceImages := st_referenceImages st;
         st_styleImage := st_styleImage st;
         st_inputVideo := st_inputVideo st;
         st_inputVideoObject := st_inputVideoObject st;
         st_isLooping := st_isLooping st |}
  | EXTEND_VIDEO =>
      {| st_prompt := st_prompt st;
         st_model := st_model st;
         st_aspectRatio := st_aspectRatio st;
         st_resolution := P720;
         st_generationMode := st_generationMode st;
         st_startFrame := st_startFrame st;
         st_endFrame := st_endFrame st;
         st_referenceImages := st_referenceImages st;
         st_styleImage := st_styleImage st;
         st_inputVideo := st_inputVideo st;
         st_inputVideoObject := st_inputVideoObject st;
         st_isLooping := st_isLooping st |}
  | _ => st
  end.

(** The form once React has rendered the state [after] that a handler set
    from the state [before]: the effect runs when [generationMode] differs
    between the two renders, and only then. *)
Definition settle (before after : PromptFormState) : PromptFormState :=
  if mode_eqb (st_generationMode before) (st_generationMode after)
  then after
  else modeEffect after.


(** Choosing a character in [CharacterManager], effects included. *)
Definition selectCharacter (char : Character) (st : PromptFormState)
  : PromptFormState :=
  settle st (handleCharacterSelect char st).

(** A scene of the gallery: the fields of [Scene] that the form reads.
    [scene_blob_type] is the [type] of the scene's blob. *)
Record Scene := {
  scene_id : string;
  scene_blob_type : string;
  scene_videoObject : option Video
}.

(** [scenes.find((s) => s.id === sceneId)]. *)
Definition findScene (sceneId : string) (scenes : list Scene) : option Scene :=
  find (fun s => String.eqb (scene_id s) sceneId) scenes.

(** [handleSceneDrop], lines 228 to 242. *)
Definition handleSceneDrop (scenes : list Scene) (sceneId : string)
    (st : PromptFormState) : PromptFormState :=
  match findScene sceneId scenes with
  | Some scene =>
      let sceneFile :=
        {| file_name := ("scene-" ++ scene_id scene ++ ".mp4")%string;
           file_type := scene_blob_type scene |} in
      let videoFile := {| vf_file := sceneFile; vf_base64 := EmptyString |} in
      {| st_prompt := st_prompt st;
         st_model := st_model st;
         st_aspectRatio := st_aspectRatio st;
         st_resolution := st_resolution st;
         st_generationMode := EXTEND_VIDEO;
         st_startFrame := st_startFrame st;
         st_endFrame := st_endFrame st;
         st_referenceImages := st_referenceImages st;
         st_styleImage := st_styleImage st;
         st_inputVideo := Some videoFile;
         st_inputVideoObject := scene_videoObject scene;
         st_isLooping := st_isLooping st |}
  | None => st
  end.

(** The switch of lines 398 to 447: whether the submit button is disabled,
    and the tooltip that says why. *)
Definition submitState (st : PromptFormState) : bool * string :=
  let blankPrompt := negb (truthy (trim (st_prompt st))) in
  match st_generationMode st with
  | TEXT_TO_VIDEO =>
      (blankPrompt, if blankPrompt then "Please enter a prompt." else EmptyString)
  | FRAMES_TO_VIDEO =>
      match st_startFrame st with
      | Some _ => (false, EmptyString)
      | None => (true, "A start frame is required.")
      end
  | REFERENCES_TO_VIDEO =>
      let hasNoRefs := (length (st_referenceImages st) =? 0)%nat in
      let hasNoPrompt := blankPrompt in
      (hasNoRefs || hasNoPrompt,
       if hasNoRefs && hasNoPrompt
       then "Please add reference image(s) and enter a prompt."
       else if hasNoRefs then "At least one reference image is required."
       else if hasNoPrompt then "Please enter a prompt."
       else EmptyString)
  | EXTEND_VIDEO =>
      let hasInputFile := match st_inputVideo st with Some _ => true | None => false end in
      let hasInputObject :=
        match st_inputVideoObject st with Some _ => true | None => false end in
      let hasNoExtendPrompt := blankPrompt in
      let disabled := negb hasInputObject || hasNoExtendPrompt in
      (disabled,
       if disabled then
         if negb hasInputObject then
           if hasInputFile
           then "Video data lost. Please regenerate or re-select the scene from the gallery."
           else "An input video from a previous generation is required to extend."
         else if hasNoExtendPrompt
         then "Please describe the next steps in the prompt."
         else EmptyString
       else EmptyString)
  end.

Definition isSubmitDisabled (st : PromptFormState) : bool := fst (submitState st).

Definition tooltipText (st : PromptFormState) : string := snd (submitState st).

(** ** Reading files: [utils/fileUtils.ts] and the upload widgets *)

(** [s.split(sep)] for a separator of one code unit. *)
Fixpoint split (sep : ascii) (s : string) : list string :=
  match s with
  | EmptyString => [EmptyString]
  | String c rest =>
      if Ascii.eqb c sep then EmptyString :: split sep rest
      else
        match split sep rest with
        | segment :: segments => String c segment :: segments
        | [] => [String c EmptyString]
        end
  end.

Definition MSG_READ_FAILED : string := "Failed to read file as base64.".

(** [fileToBase64], lines 8 to 24.  [readAsDataURL] stands for the
    [FileReader]: the data URL it loads, or the error it reports. *)
Definition fileToBase64 (readAsDataURL : File -> outcome string) (f : File)
  : outcome ImageFile :=
  match readAsDataURL f with
  | Ok result =>
      match nth_error (split "," result) 1 with
      | Some encoded =>
          if truthy encoded then Ok {| file := f; base64 := encoded |}
          else Throw {| message := MSG_READ_FAILED |}
      | None => Throw {| message := MSG_READ_FAILED |}
      end
  | Throw error => Throw error
  end.

Definition fileToImageFile := fileToBase64.

Definition fileToVideoFile (readAsDataURL : File -> outcome string) (f : File)
  : outcome VideoFile :=
  match fileToBase64 readAsDataURL f with
  | Ok img => Ok {| vf_file := file img; vf_base64 := base64 img |}
  | Throw error => Throw error
  end.

(** [handleFileChange] of [ImageUpload]: the image handed to [onSelect], if
    any; a failed conversion is logged and dropped. *)
Definition imageFileChange (readAsDataURL : File -> outcome string)
    (files : list File) : option ImageFile :=
  match files with
  | f :: _ =>
      match fileToImageFile readAsDataURL f with
      | Ok imageFile => Some imageFile
      | Throw _ => None
      end
  | [] => None
  end.

(** What a drop on [VideoUpload] triggers. *)
Inductive DropAction :=
| SceneSelected (sceneId : string)
| VideoSelected (videoFile : VideoFile)
| NothingSelected.

(** [handleDrop] of [VideoUpload]: a dragged scene wins over dropped files,
    and a dropped file counts only with a [video/] type. *)
Definition videoDrop (readAsDataURL : File -> outcome string)
    (sceneId : string) (files : list File) : DropAction :=
  if truthy sceneId then SceneSelected sceneId
  else
    match files with
    | f :: _ =>
        if String.prefix "video/" (file_type f) then
          match fileToVideoFile readAsDataURL f with
          | Ok videoFile => VideoSelected videoFile
          | Throw _ => NothingSelected
          end
        else NothingSelected
    | [] => NothingSelected
    end.

(** ** Saving a character: [CharacterManager] *)

Record CharacterForm := {
  isCreating : bool;
  newName : string;
  newDescription : string;
  newAvatar : option ImageFile
}.

(** [handleSave]: the character handed to [onAddCharacter], if any, and the
    form afterwards.  [now] is [Date.now().toString()]. *)
Definition handleSave (now : string) (form : CharacterForm)
  : option Character * CharacterForm :=
  if negb (truthy (trim (newName form)))
     || negb (truthy (trim (newDescription form)))
  then (None, form)
  else
    (Some {| char_id := now;
             char_name := trim (newName form);
             char_description := trim (newDescription form);
             avatar := newAvatar form |},
     {| isCreating := false;
        newName := EmptyString;
        newDescription := EmptyString;
        newAvatar := None |}).

(** ** More vocabulary *)

(** Milliseconds spent waiting according to a log. *)
Definition waitedMs (log : list Event) : N :=
  fold_right (fun ev total =>
                match ev with
                | CallSetTimeout ms => (ms + total)%N
                | _ => total
                end) 0%N log.

Definition fetchCount (log : list Event) : nat :=
  length (filter (fun ev => match ev with
                            | CallFetch _ => true
                            | _ => false
                            end) log).

Definition submitCount (log : list Event) : nat :=
  length (filter (fun ev => match ev with
                            | CallGenerateVideos _ => true
                            | _ => false
                            end) log).

(** A form in extend mode after a scene was dropped on it, and the scene. *)
Definition sampleScene : Scene :=
  {| scene_id := "42"; scene_blob_type := "video/mp4";
     scene_videoObject := Some sampleVideo |}.

Definition blankForm (p : string) : PromptFormState :=
  {| st_prompt := p; st_model := VEO_FAST; st_aspectRatio := LANDSCAPE;
     st_resolution := P720; st_generationMode := TEXT_TO_VIDEO;
     st_startFrame := None; st_endFrame := None; st_referenceImages := [];
     st_styleImage := None; st_inputVideo := None;
     st_inputVideoObject := None; st_isLooping := false |}.

Definition sampleCharacter : Character :=
  {| char_id := "1"; char_name := "Cyber Samurai";
     char_description := "red armour"; avatar := Some (sampleImage "samurai") |}.

(** A reader that loads a PNG data URL, and one that loads an empty file. *)
Definition pngReader (f : File) : outcome string :=
  Ok "data:image/png;base64,iVBORw0KGgo=".

Definition emptyReader (f : File) : outcome string :=
  Ok "data:application/octet-stream;base64,".

Definition pngFile : File := {| file_name := "a.png"; file_type := "image/png" |}.

(** A looping request that still holds an end frame. *)
Definition loopParams : GenerateVideoParams :=
  {| prompt := EmptyString; model := VEO_FAST; aspectRatio := LANDSCAPE;
     resolution := P720; mode := FRAMES_TO_VIDEO;
     startFrame := Some (sampleImage "start");
     endFrame := Some (sampleImage "stale");
     referenceImages := Some [];
     styleImage := None; inputVideo := None; inputVideoObject := None;
     isLooping := true |}.

(** A text request that still holds media of every kind, except reference
    images. *)
Definition leftoverTextParams : GenerateVideoParams :=
  {| prompt := "a fox"; model := VEO_FAST; aspectRatio := LANDSCAPE;
     resolution := P720; mode := TEXT_TO_VIDEO;
     startFrame := Some (sampleImage "start");
     endFrame := Some (sampleImage "end");
     referenceImages := Some [];
     styleImage := Some (sampleImage "style");
     inputVideo := None; inputVideoObject := Some sampleVideo;
     isLooping := true |}.

(** The world after the fox request was submitted to [readyAtOnce] and its
    video downloaded. *)
Definition downloadedWorld : World nat :=
  {| remote := 0;
     calls := [CallGenerateVideos foxPayload;
               CallFetch "https://example.test/files/abc:download?alt=media&key=KEY"] |}.

(** A service that rejects its [failAt]-th status request, or the
    submission itself for 0, and leaves the job pending otherwise. *)
Definition flaky (failAt : nat) : Platform nat :=
  {| sdk_generateVideos := fun _ polls =>
       (if (failAt =? 0)%nat then Throw serviceUnavailable else Ok pendingOperation,
        polls);
     sdk_getVideosOperation := fun _ polls =>
       (if (failAt =? S polls)%nat then Throw serviceUnavailable
        else Ok pendingOperation,
        S polls);
     sdk_generateContent := fun _ _ polls => (Ok emptyAnswer, polls);
     net_fetch := fun _ polls => (Ok okResponse, polls);
     API_KEY := Some "KEY";
     decodeURIComponent := percentDecode;
     createObjectURL := fun b => ("blob:" ++ b)%string |}.

(** The code unit [c] occurs in [s]. *)
Fixpoint occurs (c : ascii) (s : string) : bool :=
  match s with
  | EmptyString => false
  | String x rest => Ascii.eqb x c || occurs c rest
  end.

(** A form being filled in [CharacterManager]. *)
Definition samuraiForm : CharacterForm :=
  {| isCreating := true; newName := "  Cyber Samurai ";
     newDescription := "red armour  "; newAvatar := None |}.

Definition mp4File : File := {| file_name := "clip.mp4"; file_type := "video/mp4" |}.

(** * Properties of the request builder *)

Lemma string_length_append (a b : string) :
  String.length (a ++ b) = String.length a + String.length b.
Proof.
  induction a as [| c a IH]; [reflexivity |]. simpl. now rewrite IH.
Qed.

Lemma truthy_nonempty (s : string) : truthy s = true <-> s <> EmptyString.
Proof.
  destruct s; simpl; split; intro H; try reflexivity; try discriminate.
  now contradiction H.
Qed.

(** Every field of a built payload, whatever the mode. *)
Lemma buildPayload_fields (params : GenerateVideoParams)
    (payload : GenerateVideosParameters) :
  buildPayload params = Ok payload ->
  payload_model payload = selectModel params /\
  payload_config payload = buildConfig params /\
  payload_prompt payload = buildPrompt params.
Proof.
  unfold buildPayload.
  destruct (mode params); try destruct (inputVideoObject params);
    intro H; inversion H; subst; simpl; auto.
Qed.

(** The builder fails only for an extension without a video object. *)
Lemma buildPayload_total (params : GenerateVideoParams) :
  (mode params <> EXTEND_VIDEO \/ inputVideoObject params <> None) ->
  exists payload, buildPayload params = Ok payload.
Proof.
  unfold buildPayload. intros [Hm | Hv].
  - destruct (mode params); try (eexists; reflexivity).
    now contradiction Hm.
  - destruct (mode params); try (eexists; reflexivity).
    destruct (inputVideoObject params); [eexists; reflexivity | now contradiction Hv].
Qed.

(** C4, as amended: a built payload has a prompt field exactly when the
    user prompt is a non-empty string; no trimming takes place, and outside
    the extension-with-target-frame case the prompt is sent as typed, so a
    whitespace-only prompt is sent too. *)
Theorem prompt_field_iff_nonempty (params : GenerateVideoParams)
    (payload : GenerateVideosParameters) :
  buildPayload params = Ok payload ->
  (payload_prompt payload <> None <-> prompt params <> EmptyString) /\
  (prompt params <> EmptyString ->
   mode params <> EXTEND_VIDEO \/ effectiveEndFrame params = None ->
   payload_prompt payload = Some (prompt params)).
Proof.
  intro Hb. apply buildPayload_fields in Hb as (_ & _ & ->).
  unfold buildPrompt. split.
  - rewrite <- truthy_nonempty.
    destruct (truthy (prompt params)); split; intro H;
      try reflexivity; try discriminate; now contradiction H.
  - intros Hne Hcase. apply truthy_nonempty in Hne. rewrite Hne.
    destruct Hcase as [Hm | He].
    + destruct (mode params); try reflexivity. now contradiction Hm.
    + rewrite He. now destruct (mode_eqb (mode params) EXTEND_VIDEO).
Qed.

Lemma prompt_field_iff_nonempty_witness :
  buildPayload whitespaceParams = Ok whitespacePayload /\
  (payload_prompt whitespacePayload <> None <->
   prompt whitespaceParams <> EmptyString) /\
  (prompt whitespaceParams <> EmptyString ->
   mode whitespaceParams <> EXTEND_VIDEO \/
   effectiveEndFrame whitespaceParams = None ->
   payload_prompt whitespacePayload = Some "   ").
Proof.
  split; [reflexivity |].
  exact (prompt_field_iff_nonempty whitespaceParams whitespacePayload eq_refl).
Defined.

(** C4, as stated, fails: frames-to-video from a start frame with a prompt
    of three spaces builds a payload that carries the three spaces, although
    the trimmed prompt is empty. *)
Lemma whitespace_prompt_is_sent :
  ~ promptFieldIffTrimmedNonEmpty whitespaceParams.
Proof.
  intro H.
  assert (Hb : buildPayload whitespaceParams = Ok whitespacePayload) by reflexivity.
  destruct (H _ Hb) as [Hfield _]. simpl in Hfield.
  apply Hfield; [discriminate | reflexivity].
Qed.

(** C5, as amended: in an extension with an effective end frame and a
    non-empty prompt P, the outgoing prompt is P followed, verbatim, by the
    transition clause of line 79, and so differs from P; for an empty prompt
    the payload has no prompt field.  The parameter object comes back from
    the call as it went in: its prompt is still P. *)
Theorem extend_prompt_gets_transition_suffix (params : GenerateVideoParams)
    (frame : ImageFile) (payload : GenerateVideosParameters) :
  mode params = EXTEND_VIDEO ->
  effectiveEndFrame params = Some frame ->
  fst (buildRequest params) = Ok payload ->
  (prompt params <> EmptyString ->
   payload_prompt payload
   = Some (prompt params ++ ". The video must seamlessly transition from the input video to the provided last frame. Correct any inconsistencies between the input video's end and the target frame so the camera moves in one unified approach to the final frame.")%string /\
   payload_prompt payload <> Some (prompt params)) /\
  (prompt params = EmptyString -> payload_prompt payload = None) /\
  snd (buildRequest params) = params /\
  prompt (snd (buildRequest params)) = prompt params.
Proof.
  intros Hm He Hb. cbn [buildRequest fst snd] in *.
  apply buildPayload_fields in Hb as (_ & _ & ->).
  unfold buildPrompt. rewrite Hm, He. cbn [mode_eqb].
  repeat split.
  - apply truthy_nonempty in H. rewrite H. reflexivity.
  - apply truthy_nonempty in H. rewrite H. unfold TRANSITION_SUFFIX.
    intro Heq. inversion Heq as [Hs].
    apply (f_equal String.length) in Hs.
    rewrite string_length_append in Hs. cbn [String.length] in Hs. lia.
  - intros ->. reflexivity.
Qed.

Lemma extend_prompt_gets_transition_suffix_witness :
  fst (buildRequest (extendParams "P")) = Ok extendPayload /\
  payload_prompt extendPayload
  = Some "P. The video must seamlessly transition from the input video to the provided last frame. Correct any inconsistencies between the input video's end and the target frame so the camera moves in one unified approach to the final frame." /\
  prompt (snd (buildRequest (extendParams "P"))) = "P".
Proof.
  split; [reflexivity |].
  destruct (extend_prompt_gets_transition_suffix
              (extendParams "P") (sampleImage "end") extendPayload
              eq_refl eq_refl eq_refl)
    as (Hsuffix & _ & _ & Hkept).
  split; [| exact Hkept].
  apply Hsuffix. discriminate.
Defined.

(** C5, as stated, fails for the empty prompt: an extension of the sample
    video towards a target frame with the prompt [""] builds a payload
    without prompt field, not one whose prompt is the transition clause. *)
Lemma empty_prompt_gets_no_transition_suffix :
  effectiveEndFrame (extendParams EmptyString) = Some (sampleImage "end") /\
  ~ promptIsSuffixed (extendParams EmptyString).
Proof.
  split; [reflexivity |].
  intro H.
  assert (Hb : buildPayload (extendParams EmptyString) = Ok emptyExtendPayload)
    by reflexivity.
  specialize (H _ Hb). discriminate H.
Qed.

(** C6: with at least one reference image the payload names the full model
    [VEO], whatever the mode and the model the user chose. *)
Theorem reference_images_force_full_model (params : GenerateVideoParams)
    (img : ImageFile) (others : list ImageFile)
    (payload : GenerateVideosParameters) :
  referenceImages params = Some (img :: others) ->
  buildPayload params = Ok payload ->
  payload_model payload = VEO /\ payload_model payload <> VEO_FAST.
Proof.
  intros Hr Hb. apply buildPayload_fields in Hb as (-> & _).
  unfold selectModel. rewrite Hr. split; [reflexivity | discriminate].
Qed.

Lemma reference_images_force_full_model_witness :
  model (referenceParams TEXT_TO_VIDEO) = VEO_FAST /\
  buildPayload (referenceParams TEXT_TO_VIDEO)
  = Ok {| payload_model := VEO;
          payload_config := buildConfig (referenceParams TEXT_TO_VIDEO);
          payload_prompt := Some "a fox";
          payload_image := None;
          payload_video := None |} /\
  VEO = VEO /\ VEO <> VEO_FAST.
Proof.
  split; [reflexivity |]. split; [reflexivity |].
  exact (reference_images_force_full_model
           (referenceParams TEXT_TO_VIDEO) (sampleImage "a") [sampleImage "b"]
           {| payload_model := VEO;
              payload_config := buildConfig (referenceParams TEXT_TO_VIDEO);
              payload_prompt := Some "a fox";
              payload_image := None;
              payload_video := None |}
           eq_refl eq_refl).
Defined.

Lemma buildReferenceImages_spec (params : GenerateVideoParams) :
  buildReferenceImages params =
    if mode_eqb (mode params) REFERENCES_TO_VIDEO
       || mode_eqb (mode params) EXTEND_VIDEO
    then omitEmpty (map assetReference (userReferences params) ++ styleEntry params)
    else None.
Proof.
  unfold buildReferenceImages, userReferences, styleEntry, omitEmpty.
  destruct (mode_eqb (mode params) REFERENCES_TO_VIDEO
            || mode_eqb (mode params) EXTEND_VIDEO); [| reflexivity].
  destruct (referenceImages params), (styleImage params);
    simpl; rewrite ?app_nil_r; reflexivity.
Qed.

(** C7: the reference-image field of a built payload is absent outside
    the references and extension modes; in these two modes it lists the
    user's reference images in their order, each with its own base64 bytes
    and file type and the role [ASSET], then the style image, with its own
    bytes and type, as a [STYLE] entry when there is one, and is absent when
    that list is empty.  Two reference images and a style image in
    references mode give three entries, [ASSET; ASSET; STYLE]. *)
Theorem reference_list_layout (params : GenerateVideoParams)
    (payload : GenerateVideosParameters) :
  buildPayload params = Ok payload ->
  (mode params <> REFERENCES_TO_VIDEO -> mode params <> EXTEND_VIDEO ->
   cfg_referenceImages (payload_config payload) = None) /\
  (mode params = REFERENCES_TO_VIDEO \/ mode params = EXTEND_VIDEO ->
   cfg_referenceImages (payload_config payload)
   = omitEmpty
       (map (fun img =>
               {| image := {| imageBytes := base64 img;
                              mimeType := file_type (file img) |};
                  referenceType := ASSET |})
            (userReferences params)
        ++ match styleImage params with
           | Some img =>
               [ {| image := {| imageBytes := base64 img;
                                mimeType := file_type (file img) |};
                    referenceType := STYLE |} ]
           | None => []
           end)) /\
  (forall a b s,
     mode params = REFERENCES_TO_VIDEO ->
     referenceImages params = Some [a; b] ->
     styleImage params = Some s ->
     exists entries,
       cfg_referenceImages (payload_config payload) = Some entries /\
       entries
       = [ {| image := {| imageBytes := base64 a; mimeType := file_type (file a) |};
              referenceType := ASSET |};
           {| image := {| imageBytes := base64 b; mimeType := file_type (file b) |};
              referenceType := ASSET |};
           {| image := {| imageBytes := base64 s; mimeType := file_type (file s) |};
              referenceType := STYLE |} ] /\
       length entries = 3 /\
       map referenceType entries = [ASSET; ASSET; STYLE]).
Proof.
  intro Hb. apply buildPayload_fields in Hb as (_ & -> & _).
  simpl. rewrite buildReferenceImages_spec.
  repeat split.
  - intros H1 H2. destruct (mode params); try reflexivity; contradiction.
  - intros [-> | ->]; reflexivity.
  - intros a b s Hm Hr Hs. unfold userReferences, styleEntry.
    rewrite Hm, Hr, Hs. simpl. eexists. repeat split.
Qed.

Lemma reference_list_layout_witness :
  exists entries,
    cfg_referenceImages (buildConfig (referenceParams REFERENCES_TO_VIDEO))
    = Some entries /\
    entries
    = [ {| image := {| imageBytes := "a"; mimeType := "image/png" |};
           referenceType := ASSET |};
        {| image := {| imageBytes := "b"; mimeType := "image/png" |};
           referenceType := ASSET |};
        {| image := {| imageBytes := "s"; mimeType := "image/png" |};
           referenceType := STYLE |} ] /\
    length entries = 3 /\
    map referenceType entries = [ASSET; ASSET; STYLE].
Proof.
  exact (proj2 (proj2 (reference_list_layout
           (referenceParams REFERENCES_TO_VIDEO)
           {| payload_model := VEO;
              payload_config := buildConfig (referenceParams REFERENCES_TO_VIDEO);
              payload_prompt := Some "a fox";
              payload_image := None;
              payload_video := None |}
           eq_refl))
         (sampleImage "a") (sampleImage "b") (sampleImage "s")
         eq_refl eq_refl eq_refl).
Defined.

(** * Properties of the driver *)

Lemma pollCount_app (a b : list Event) :
  pollCount (a ++ b) = pollCount a + pollCount b.
Proof. unfold pollCount. now rewrite filter_app, length_app. Qed.

Lemma waitCount_app (a b : list Event) :
  waitCount (a ++ b) = waitCount a + waitCount b.
Proof. unfold waitCount. now rewrite filter_app, length_app. Qed.

Lemma pollCount_waitPollLog (polled : list Operation) :
  pollCount (waitPollLog polled) = length polled.
Proof.
  induction polled as [| operation polled IH]; [reflexivity |].
  unfold pollCount in *. simpl. now rewrite IH.
Qed.

Lemma waitCount_waitPollLog (polled : list Operation) :
  waitCount (waitPollLog polled) = length polled.
Proof.
  induction polled as [| operation polled IH]; [reflexivity |].
  unfold waitCount in *. simpl. now rewrite IH.
Qed.

Section Driver.

Context {R : Type} (P : Platform R).

(** The loop, unfolded once, as the source writes it. *)
Lemma pollLoop_step (attempts : nat) (operation : Operation) (w : World R) :
  pollLoop P attempts operation w =
    if negb (is_done operation) && (attempts <? MAX_ATTEMPTS)%nat then
      match (sleep 10000 ;;; getVideosOperation P operation) w with
      | (Ok operation', w') => pollLoop P (S attempts) operation' w'
      | (Throw e, w') => (Throw e, w')
      end
    else (Ok operation, w).
Proof.
  funelim (pollLoop P attempts operation w).
  - rewrite e. reflexivity.
  - rewrite Hcond, Heq. reflexivity.
  - rewrite Hcond, Heq. reflexivity.
Qed.

(** One iteration logs a wait and a status request, in this order. *)
Lemma wait_then_poll (operation : Operation) (w : World R) :
  (sleep 10000 ;;; getVideosOperation P operation) w =
    (fst (sdk_getVideosOperation P operation (remote w)),
     {| remote := snd (sdk_getVideosOperation P operation (remote w));
        calls := calls w ++ waitPollLog [operation] |}).
Proof.
  unfold bind, sleep, getVideosOperation, external. simpl.
  destruct (sdk_getVideosOperation P operation (remote w)) as [r s].
  simpl. now rewrite <- app_assoc.
Qed.

Lemma repoll_succ (n : nat) (operation operation' : Operation) (w w' : World R) :
  (sleep 10000 ;;; getVideosOperation P operation) w = (Ok operation', w') ->
  repoll P (S n) operation w = repoll P n operation' w'.
Proof.
  intro Hstep. simpl. unfold bind at 1. now rewrite Hstep.
Qed.

(** [n] successful re-polls log [n] wait-and-poll pairs and nothing else. *)
Lemma repoll_log (n : nat) :
  forall (operation operation' : Operation) (w w' : World R),
    repoll P n operation w = (Ok operation', w') ->
    exists polled,
      length polled = n /\ calls w' = calls w ++ waitPollLog polled.
Proof.
  induction n as [| n IH]; intros operation operation' w w' Hrun.
  - inversion Hrun; subst. exists []. now rewrite app_nil_r.
  - simpl in Hrun. unfold bind at 1 in Hrun.
    destruct ((sleep 10000 ;;; getVideosOperation P operation) w)
      as [[next | e] w1] eqn:Hstep; [| discriminate].
    destruct (IH _ _ _ _ Hrun) as (polled & Hlen & Hlog).
    rewrite wait_then_poll in Hstep. inversion Hstep; subst w1.
    exists (operation :: polled). split; [simpl; now rewrite Hlen |].
    rewrite Hlog. simpl. now rewrite <- app_assoc.
Qed.

(** While the first [j] observations are pending and the cap allows [j]
    more iterations, the loop does what [j] re-polls do and goes on from
    there. *)
Lemma pollLoop_follows_repoll (j : nat) :
  forall (attempts : nat) (operation : Operation) (w : World R),
    attempts + j <= MAX_ATTEMPTS ->
    (forall n, n < j ->
       exists operation' w',
         repoll P n operation w = (Ok operation', w') /\
         is_done operation' = false) ->
    pollLoop P attempts operation w =
      (operation' <- repoll P j operation ;;
       pollLoop P (attempts + j) operation') w.
Proof.
  induction j as [| j IH]; intros attempts operation w Hcap Hpending.
  - unfold bind. simpl. now rewrite Nat.add_0_r.
  - destruct (Hpending 0 (Nat.lt_0_succ j)) as (op0 & w0 & Hobs & Hnot).
    inversion Hobs; subst op0 w0.
    rewrite pollLoop_step, Hnot.
    assert (Hlt : (attempts <? MAX_ATTEMPTS)%nat = true)
      by (apply Nat.ltb_lt; lia).
    rewrite Hlt. simpl negb. simpl andb.
    unfold bind at 2. simpl repoll. unfold bind at 2.
    destruct ((sleep 10000 ;;; getVideosOperation P operation) w)
      as [[next | e] w1] eqn:Hstep; [| reflexivity].
    rewrite (IH (S attempts) next w1).
    + unfold bind. now rewrite Nat.add_succ_r.
    + lia.
    + intros n Hn. rewrite <- (repoll_succ n _ _ _ _ Hstep).
      apply Hpending. lia.
Qed.

Lemma pollLoop_stops_when_done (attempts : nat) (operation : Operation)
    (w : World R) :
  is_done operation = true ->
  pollLoop P attempts operation w = (Ok operation, w).
Proof. intro Hd. now rewrite pollLoop_step, Hd. Qed.

Lemma pollLoop_stops_at_cap (operation : Operation) (w : World R) :
  pollLoop P MAX_ATTEMPTS operation w = (Ok operation, w).
Proof.
  rewrite pollLoop_step, Nat.ltb_irrefl, andb_false_r. reflexivity.
Qed.

(** The loop always returns: with a handle, or with the rejection of a
    status request. *)
Lemma pollLoop_returns (attempts : nat) (operation : Operation) (w : World R) :
  exists r w', pollLoop P attempts operation w = (r, w').
Proof.
  destruct (pollLoop P attempts operation w) as [r w']. now exists r, w'.
Qed.

Lemma generateVideo_submitted (params : GenerateVideoParams)
    (payload : GenerateVideosParameters) (submitted : Operation)
    (w w1 : World R) :
  buildPayload params = Ok payload ->
  generateVideos P payload w = (Ok submitted, w1) ->
  generateVideo P params w =
    (operation <- pollLoop P 0 submitted ;;
     if negb (is_done operation) then throw MSG_TIMEOUT
     else resolve P operation) w1.
Proof.
  intros Hb Hs. unfold generateVideo.
  unfold bind at 1. unfold lift. rewrite Hb.
  unfold bind at 1. now rewrite Hs.
Qed.

Lemma generateVideos_log (payload : GenerateVideosParameters)
    (r : outcome Operation) (w w1 : World R) :
  generateVideos P payload w = (r, w1) ->
  calls w1 = calls w ++ [CallGenerateVideos payload].
Proof.
  unfold generateVideos, external.
  destruct (sdk_generateVideos P payload (remote w)).
  intro H; inversion H; reflexivity.
Qed.

End Driver.

(** C1: an extension request without an input video object fails with the
    error that names the missing input video object, and it fails before
    anything leaves the program: the world, its call log included, is the
    one [generateVideo] started from. *)
Theorem extend_without_video_object_fails_first {R : Type} (P : Platform R)
    (params : GenerateVideoParams) (w : World R) :
  mode params = EXTEND_VIDEO ->
  inputVideoObject params = None ->
  generateVideo P params w
  = (Throw {| message := "An input video object is required to extend a video." |}, w) /\
  index 0 "input video object" MSG_INPUT_VIDEO_REQUIRED = Some 3.
Proof.
  intros Hm Hv. split; [| reflexivity].
  unfold generateVideo, bind, lift, buildPayload.
  now rewrite Hm, Hv.
Qed.

Lemma extend_without_video_object_fails_first_witness :
  generateVideo readyAtOnce orphanExtendParams startWorld
  = (Throw {| message := "An input video object is required to extend a video." |},
     startWorld) /\
  index 0 "input video object" MSG_INPUT_VIDEO_REQUIRED = Some 3.
Proof.
  exact (extend_without_video_object_fails_first
           readyAtOnce orphanExtendParams startWorld eq_refl eq_refl).
Defined.

(** C2: when the handle is still not done at each of the 61 observations
    the driver can make, [generateVideo] issues exactly 60 status requests,
    each straight after a wait of 10 000 ms (10 seconds), and then throws
    the timeout error, whose message differs from the three messages of a
    failure reported by the service.  The log holds nothing after the 60th
    request. *)
Theorem never_done_times_out {R : Type} (P : Platform R)
    (params : GenerateVideoParams) (payload : GenerateVideosParameters)
    (submitted : Operation) (w w1 : World R) :
  buildPayload params = Ok payload ->
  generateVideos P payload w = (Ok submitted, w1) ->
  (forall i, 1 <= i <= S MAX_ATTEMPTS -> pendingAt P i submitted w1) ->
  exists polled w',
    generateVideo P params w = (Throw {| message := MSG_TIMEOUT |}, w') /\
    calls w' = calls w ++ CallGenerateVideos payload :: waitPollLog polled /\
    length polled = 60 /\
    pollCount (calls w') = pollCount (calls w) + 60 /\
    waitCount (calls w') = waitCount (calls w) + 60 /\
    MSG_TIMEOUT <> MSG_NO_RESPONSE /\
    MSG_TIMEOUT <> MSG_NO_VIDEOS_RETURNED /\
    MSG_TIMEOUT <> MSG_MISSING_URI.
Proof.
  intros Hb Hs Hpending.
  assert (Hobs : forall n, n <= MAX_ATTEMPTS ->
            exists operation' w',
              repoll P n submitted w1 = (Ok operation', w') /\
              is_done operation' = false).
  { intros n Hn. destruct (Hpending (S n)) as (o & w' & Ho & Hd); [lia |].
    unfold observation in Ho. simpl in Ho. rewrite Nat.sub_0_r in Ho.
    now exists o, w'. }
  destruct (Hobs MAX_ATTEMPTS (Nat.le_refl _)) as (final & w' & Hrun & Hnot).
  destruct (repoll_log P _ _ _ _ _ Hrun) as (polled & Hlen & Hlog).
  exists polled, w'.
  rewrite (generateVideos_log P _ _ _ _ Hs) in Hlog.
  rewrite <- app_assoc in Hlog. simpl in Hlog.
  repeat split; try discriminate; try exact Hlen; try exact Hlog.
  - rewrite (generateVideo_submitted P _ _ _ _ _ Hb Hs).
    unfold bind at 1.
    rewrite (pollLoop_follows_repoll P MAX_ATTEMPTS 0 submitted w1);
      [| lia | intros n Hn; apply Hobs; lia].
    unfold bind at 1. rewrite Hrun. simpl Nat.add.
    rewrite pollLoop_stops_at_cap, Hnot. reflexivity.
  - rewrite Hlog, pollCount_app. simpl.
    change (pollCount (CallGenerateVideos payload :: waitPollLog polled))
      with (pollCount (waitPollLog polled)).
    now rewrite pollCount_waitPollLog, Hlen.
  - rewrite Hlog, waitCount_app. simpl.
    change (waitCount (CallGenerateVideos payload :: waitPollLog polled))
      with (waitCount (waitPollLog polled)).
    now rewrite waitCount_waitPollLog, Hlen.
Qed.

(** C10: when the [k]-th observation is the first that is done (the handle
    returned by the submission being observation 1), the loop makes exactly
    [k - 1] status requests, each straight after one wait of 10 000 ms, and
    hands that [k]-th handle to the resolution.  A handle that is done when
    the submission returns is resolved in the very world the submission left:
    no request, no wait. *)
Theorem done_at_kth_observation {R : Type} (P : Platform R)
    (params : GenerateVideoParams) (payload : GenerateVideosParameters)
    (submitted finished : Operation) (k : nat) (w w1 wk : World R) :
  buildPayload params = Ok payload ->
  generateVideos P payload w = (Ok submitted, w1) ->
  1 <= k <= S MAX_ATTEMPTS ->
  (forall i, 1 <= i < k -> pendingAt P i submitted w1) ->
  observation P k submitted w1 = (Ok finished, wk) ->
  is_done finished = true ->
  pollLoop P 0 submitted w1 = (Ok finished, wk) /\
  generateVideo P params w = resolve P finished wk /\
  (exists polled,
     length polled = k - 1 /\ calls wk = calls w1 ++ waitPollLog polled) /\
  pollCount (calls wk) = pollCount (calls w1) + (k - 1) /\
  waitCount (calls wk) = waitCount (calls w1) + (k - 1) /\
  (k = 1 -> finished = submitted /\ wk = w1).
Proof.
  intros Hb Hs Hk Hpending Hobs Hdone.
  unfold observation in Hobs.
  assert (Hloop : pollLoop P 0 submitted w1 = (Ok finished, wk)).
  { rewrite (pollLoop_follows_repoll P (k - 1) 0 submitted w1).
    - unfold bind. rewrite Hobs. now apply pollLoop_stops_when_done.
    - unfold MAX_ATTEMPTS in *. lia.
    - intros n Hn. destruct (Hpending (S n)) as (o & w' & Ho & Hd); [lia |].
      unfold observation in Ho. simpl in Ho. rewrite Nat.sub_0_r in Ho.
      now exists o, w'. }
  destruct (repoll_log P _ _ _ _ _ Hobs) as (polled & Hlen & Hlog).
  repeat split.
  - exact Hloop.
  - rewrite (generateVideo_submitted P _ _ _ _ _ Hb Hs).
    unfold bind at 1. now rewrite Hloop, Hdone.
  - now exists polled.
  - now rewrite Hlog, pollCount_app, pollCount_waitPollLog, Hlen.
  - now rewrite Hlog, waitCount_app, waitCount_waitPollLog, Hlen.
  - subst k. simpl in Hobs. now inversion Hobs.
  - subst k. simpl in Hobs. now inversion Hobs.
Qed.

(** The scripted service keeps answering with the pending handle until
    its [readyAfter]-th re-poll. *)
Lemma scripted_pending (readyAfter : nat) (finished : Operation)
    (served : outcome Response) (answer : outcome GenerateContentResponse)
    (key : option string) (n : nat) :
  forall (polls : nat) (log : list Event),
    polls + n < readyAfter ->
    repoll (scripted readyAfter finished served answer key) n pendingOperation
      {| remote := polls; calls := log |}
    = (Ok pendingOperation,
       {| remote := polls + n;
          calls := log ++ waitPollLog (repeat pendingOperation n) |}).
Proof.
  induction n as [| n IH]; intros polls log Hlt.
  - simpl. unfold ret. now rewrite Nat.add_0_r, app_nil_r.
  - rewrite (repoll_succ _ n pendingOperation pendingOperation _
               {| remote := S polls;
                  calls := log ++ waitPollLog [pendingOperation] |}).
    + rewrite IH by lia. rewrite Nat.add_succ_r. simpl.
      now rewrite <- app_assoc.
    + rewrite wait_then_poll. simpl.
      destruct (readyAfter <=? S polls)%nat eqn:Hle; [| reflexivity].
      apply Nat.leb_le in Hle. lia.
Qed.

Lemma never_done_times_out_witness :
  exists polled w',
    generateVideo neverReady (textParams "a fox") startWorld
    = (Throw {| message := MSG_TIMEOUT |}, w') /\
    calls w' = calls startWorld ++ CallGenerateVideos foxPayload :: waitPollLog polled /\
    length polled = 60 /\
    pollCount (calls w') = pollCount (calls startWorld) + 60 /\
    waitCount (calls w') = waitCount (calls startWorld) + 60 /\
    MSG_TIMEOUT <> MSG_NO_RESPONSE /\
    MSG_TIMEOUT <> MSG_NO_VIDEOS_RETURNED /\
    MSG_TIMEOUT <> MSG_MISSING_URI.
Proof.
  apply (never_done_times_out neverReady (textParams "a fox") foxPayload
           pendingOperation startWorld submittedWorld);
    [reflexivity | reflexivity |].
  intros i Hi. unfold MAX_ATTEMPTS in Hi.
  unfold pendingAt, observation, neverReady, submittedWorld.
  rewrite scripted_pending by lia.
  eexists. eexists. split; reflexivity.
Defined.

Lemma done_at_kth_observation_witness :
  pollLoop readyAtThird 0 pendingOperation submittedWorld
  = (Ok finishedOperation,
     {| remote := 2;
        calls := calls submittedWorld
                 ++ waitPollLog [pendingOperation; pendingOperation] |}) /\
  pollCount (calls submittedWorld
             ++ waitPollLog [pendingOperation; pendingOperation])
  = pollCount (calls submittedWorld) + (3 - 1).
Proof.
  pose proof (done_at_kth_observation readyAtThird (textParams "a fox") foxPayload
                pendingOperation finishedOperation 3 startWorld submittedWorld
                {| remote := 2;
                   calls := calls submittedWorld
                            ++ waitPollLog [pendingOperation; pendingOperation] |}
                eq_refl eq_refl) as H.
  destruct H as (Hloop & _ & _ & Hpolls & _).
  - unfold MAX_ATTEMPTS. lia.
  - intros i Hi.
    do 3 (destruct i as [| i];
          [ first [ lia | eexists; eexists; split; reflexivity ] | ]).
    lia.
  - reflexivity.
  - reflexivity.
  - split; [exact Hloop | exact Hpolls].
Defined.

(** * Properties of the resolution *)

Lemma locate_found (operation : Operation) (resp : GenerateVideosResponse)
    (firstVideo : GeneratedVideo) (others : list GeneratedVideo)
    (videoObject : Video) (locator : string) :
  response operation = Some resp ->
  generatedVideos resp = Some (firstVideo :: others) ->
  video firstVideo = Some videoObject ->
  uri videoObject = Some locator ->
  locator <> EmptyString ->
  locate operation = Ok (videoObject, locator).
Proof.
  intros Hr Hv Hf Hu Hne. unfold locate.
  rewrite Hr, Hv, Hf, Hu. apply truthy_nonempty in Hne. now rewrite Hne.
Qed.

Lemma resolve_found {R : Type} (P : Platform R) (operation : Operation)
    (videoObject : Video) (locator : string) (w : World R) :
  locate operation = Ok (videoObject, locator) ->
  resolve P operation w = download P videoObject locator w.
Proof.
  intro Hl. unfold resolve, bind, lift. now rewrite Hl.
Qed.

Lemma resolve_not_found {R : Type} (P : Platform R) (operation : Operation)
    (e : Error) (w : World R) :
  locate operation = Throw e ->
  resolve P operation w = (Throw e, w).
Proof.
  intro Hl. unfold resolve, bind, lift. now rewrite Hl.
Qed.

(** The download, once the locator is decoded: one fetch, then the check
    of [res.ok]. *)
Lemma download_decoded {R : Type} (P : Platform R) (videoObject : Video)
    (locator url : string) (w : World R) :
  decodeURIComponent P locator = Ok url ->
  download P videoObject locator w =
    let requested := (url ++ "&key=" ++ showOptional (API_KEY P))%string in
    let logged := {| remote := snd (net_fetch P requested (remote w));
                     calls := calls w ++ [CallFetch requested] |} in
    match fst (net_fetch P requested (remote w)) with
    | Ok res =>
        if negb (ok res) then (Throw {| message := fetchFailureMessage res |}, logged)
        else (Ok {| objectUrl := createObjectURL P (body res);
                    blob := body res;
                    result_uri := url;
                    result_video := videoObject |}, logged)
    | Throw e => (Throw e, logged)
    end.
Proof.
  intro Hdec. unfold download, bind, lift, fetch, external. rewrite Hdec.
  destruct (net_fetch P (url ++ "&key=" ++ showOptional (API_KEY P))%string (remote w))
    as [[res | e] s]; simpl; [| reflexivity].
  destruct (negb (ok res)); reflexivity.
Qed.

(** C8, as amended: for a finished handle whose first video has a locator,
    the one request of the resolution is a fetch of the percent-decoded
    locator followed by [&key=] and the credential (the locator brings its
    own query string); when the answer has a status outside 200..299 the
    resolution throws a message made of the status code and the status text,
    and otherwise it returns the downloaded bytes with the decoded locator
    and the video object. *)
Theorem fetch_appends_key_with_ampersand {R : Type} (P : Platform R)
    (operation : Operation) (resp : GenerateVideosResponse)
    (firstVideo : GeneratedVideo) (others : list GeneratedVideo)
    (videoObject : Video) (locator url : string) (w : World R) :
  response operation = Some resp ->
  generatedVideos resp = Some (firstVideo :: others) ->
  video firstVideo = Some videoObject ->
  uri videoObject = Some locator ->
  locator <> EmptyString ->
  decodeURIComponent P locator = Ok url ->
  calls (snd (resolve P operation w))
  = calls w ++ [CallFetch (url ++ "&key=" ++ showOptional (API_KEY P))%string] /\
  (forall res s',
     net_fetch P (url ++ "&key=" ++ showOptional (API_KEY P))%string (remote w)
     = (Ok res, s') ->
     (non2xx res ->
      fst (resolve P operation w)
      = Throw {| message := ("Failed to fetch video: " ++ showNumber (status res)
                             ++ " " ++ statusText res)%string |}) /\
     (~ non2xx res ->
      fst (resolve P operation w)
      = Ok {| objectUrl := createObjectURL P (body res);
              blob := body res;
              result_uri := url;
              result_video := videoObject |})).
Proof.
  intros Hr Hv Hf Hu Hne Hdec.
  rewrite (resolve_found P _ _ _ w (locate_found _ _ _ _ _ _ Hr Hv Hf Hu Hne)).
  rewrite (download_decoded P _ _ _ w Hdec). cbv zeta.
  destruct (net_fetch P (url ++ "&key=" ++ showOptional (API_KEY P))%string (remote w))
    as [[res | e] s] eqn:Hfetch; cbn [fst snd].
  - split.
    + destruct (negb (ok res)); reflexivity.
    + intros res' s' Heq. inversion Heq; subst res' s'.
      unfold non2xx, ok. split; intro Hst.
      * replace ((200 <=? status res)%N && (status res <=? 299)%N) with false.
        { reflexivity. }
        symmetry. apply andb_false_iff.
        destruct Hst as [Hlow | Hhigh]; [left | right]; apply N.leb_gt; lia.
      * replace ((200 <=? status res)%N && (status res <=? 299)%N) with true.
        { reflexivity. }
        symmetry. apply andb_true_iff. split; apply N.leb_le; lia.
  - split; [reflexivity |]. intros res s' Heq. discriminate.
Qed.

Lemma fetch_appends_key_with_ampersand_witness :
  calls (snd (resolve downloadForbidden finishedOperation startWorld))
  = [CallFetch (sampleUrl ++ "&key=KEY")%string] /\
  fst (resolve downloadForbidden finishedOperation startWorld)
  = Throw {| message := "Failed to fetch video: 403 Forbidden" |}.
Proof.
  pose proof (fetch_appends_key_with_ampersand downloadForbidden finishedOperation
                {| generatedVideos := Some [ {| video := Some sampleVideo |} ] |}
                {| video := Some sampleVideo |} [] sampleVideo
                "https://example.test/files/abc%3Adownload?alt=media"
                sampleUrl startWorld
                eq_refl eq_refl eq_refl eq_refl) as H.
  destruct H as [Hlog Hres]; [discriminate | reflexivity |].
  split; [exact Hlog |].
  destruct (Hres forbiddenResponse 0 eq_refl) as [Hfail _].
  apply Hfail. right. reflexivity.
Defined.

(** C8, as stated, fails: for the sample video, whose locator decodes to
    [sampleUrl], and the credential [KEY], the pipeline fetches
    [sampleUrl&key=KEY]; the URL ending in [?key=KEY] is never requested. *)
Lemma fetch_url_is_not_question_mark_key :
  decodeURIComponent readyAtOnce "https://example.test/files/abc%3Adownload?alt=media"
  = Ok sampleUrl /\
  calls (snd (generateVideo readyAtOnce (textParams "a fox") startWorld))
  = [CallGenerateVideos foxPayload;
     CallFetch "https://example.test/files/abc:download?alt=media&key=KEY"] /\
  ~ In (CallFetch (sampleUrl ++ "?key=" ++ "KEY")%string)
       (calls (snd (generateVideo readyAtOnce (textParams "a fox") startWorld))).
Proof.
  assert (Hlog : calls (snd (generateVideo readyAtOnce (textParams "a fox") startWorld))
                 = [CallGenerateVideos foxPayload;
                    CallFetch "https://example.test/files/abc:download?alt=media&key=KEY"]).
  { rewrite (generateVideo_submitted readyAtOnce (textParams "a fox") foxPayload
               finishedOperation startWorld submittedWorld eq_refl eq_refl).
    unfold bind at 1.
    rewrite pollLoop_stops_when_done by reflexivity.
    reflexivity. }
  split; [reflexivity |]. split; [exact Hlog |].
  rewrite Hlog. intros [H | [H | []]]; discriminate.
Qed.

(** C9: inspecting a finished handle fails in exactly three cases, each
    with its own message: the handle has no response; the response's video
    list is absent or empty; the first video has no locator.  In each of
    them the resolution throws on the spot, without any request; in every
    other case the first video and its locator are found and the resolution
    goes on to the download.  The three
    messages are pairwise different, the one about no returned videos and
    the one about the missing URI in particular. *)
Theorem resolution_failure_cases {R : Type} (P : Platform R)
    (operation : Operation) (w : World R) :
  (response operation = None ->
   resolve P operation w = (Throw {| message := "No videos generated." |}, w)) /\
  (forall resp,
     response operation = Some resp ->
     generatedVideos resp = None \/ generatedVideos resp = Some [] ->
     resolve P operation w = (Throw {| message := MSG_NO_VIDEOS_RETURNED |}, w)) /\
  (forall resp firstVideo others,
     response operation = Some resp ->
     generatedVideos resp = Some (firstVideo :: others) ->
     lacksLocator firstVideo ->
     resolve P operation w
     = (Throw {| message := "Generated video is missing a URI." |}, w)) /\
  (forall e,
     locate operation = Throw e ->
     response operation = None \/
     (exists resp,
        response operation = Some resp /\
        (generatedVideos resp = None \/ generatedVideos resp = Some [])) \/
     (exists resp firstVideo others,
        response operation = Some resp /\
        generatedVideos resp = Some (firstVideo :: others) /\
        lacksLocator firstVideo)) /\
  (forall resp firstVideo others videoObject locator,
     response operation = Some resp ->
     generatedVideos resp = Some (firstVideo :: others) ->
     video firstVideo = Some videoObject ->
     uri videoObject = Some locator ->
     locator <> EmptyString ->
     locate operation = Ok (videoObject, locator) /\
     resolve P operation w = download P videoObject locator w) /\
  MSG_NO_VIDEOS_RETURNED <> MSG_MISSING_URI /\
  MSG_NO_RESPONSE <> MSG_NO_VIDEOS_RETURNED /\
  MSG_NO_RESPONSE <> MSG_MISSING_URI /\
  index 0 "no videos were returned" MSG_NO_VIDEOS_RETURNED = Some 31 /\
  index 0 "missing a URI" MSG_MISSING_URI = Some 19.
Proof.
  split; [| split; [| split; [| split; [| split]]]].
  - intro Hr. apply resolve_not_found. unfold locate. now rewrite Hr.
  - intros resp Hr Hv. apply resolve_not_found. unfold locate. rewrite Hr.
    destruct Hv as [-> | ->]; reflexivity.
  - intros resp firstVideo others Hr Hv Hl. apply resolve_not_found.
    unfold locate. rewrite Hr, Hv.
    destruct Hl as [-> | (videoObject & -> & [-> | ->])]; reflexivity.
  - intros e He. unfold locate in He.
    destruct (response operation) as [resp |] eqn:Hr; [| now left].
    right.
    destruct (generatedVideos resp) as [[| firstVideo others] |] eqn:Hv.
    + left. exists resp. auto.
    + right. exists resp, firstVideo, others. repeat split; try assumption.
      unfold lacksLocator.
      destruct (video firstVideo) as [videoObject |] eqn:Hf; [| now left].
      right. exists videoObject. split; [reflexivity |].
      destruct (uri videoObject) as [locator |] eqn:Hu; [| now left].
      right. destruct locator; [reflexivity | discriminate].
    + left. exists resp. auto.
  - intros resp firstVideo others videoObject locator Hr Hv Hf Hu Hne.
    pose proof (locate_found _ _ _ _ _ _ Hr Hv Hf Hu Hne) as Hfound.
    split; [exact Hfound | now apply resolve_found].
  - repeat split; try discriminate; reflexivity.
Qed.

Lemma resolution_failure_cases_witness :
  resolve readyAtOnce pendingOperation startWorld
  = (Throw {| message := "No videos generated." |}, startWorld) /\
  resolve readyAtOnce
    {| op_name := None; done := Some true;
       response := Some {| generatedVideos := Some [] |} |} startWorld
  = (Throw {| message := MSG_NO_VIDEOS_RETURNED |}, startWorld) /\
  resolve readyAtOnce
    {| op_name := None; done := Some true;
       response := Some {| generatedVideos := Some [ {| video := None |} ] |} |}
    startWorld
  = (Throw {| message := "Generated video is missing a URI." |}, startWorld).
Proof.
  split; [| split].
  - exact (proj1 (resolution_failure_cases readyAtOnce pendingOperation startWorld)
             eq_refl).
  - exact (proj1 (proj2 (resolution_failure_cases readyAtOnce
                           {| op_name := None; done := Some true;
                              response := Some {| generatedVideos := Some [] |} |}
                           startWorld))
             {| generatedVideos := Some [] |} eq_refl (or_intror eq_refl)).
  - exact (proj1 (proj2 (proj2 (resolution_failure_cases readyAtOnce
                           {| op_name := None; done := Some true;
                              response :=
                                Some {| generatedVideos := Some [ {| video := None |} ] |} |}
                           startWorld)))
             {| generatedVideos := Some [ {| video := None |} ] |}
             {| video := None |} [] eq_refl eq_refl (or_introl eq_refl)).
Defined.

(** * Properties of the prompt enhancer *)

Lemma enhancePrompt_unfold {R : Type} (P : Platform R) (prompt : string)
    (w : World R) :
  enhancePrompt P prompt w =
    let answered := sdk_generateContent P "gemini-2.5-flash"
                      (enhanceTemplate prompt) (remote w) in
    let logged := {| remote := snd answered;
                     calls := calls w ++ [CallGenerateContent "gemini-2.5-flash"
                                            (enhanceTemplate prompt)] |} in
    match fst answered with
    | Ok response => (Ok (textOr (text response) prompt), logged)
    | Throw e => (Throw e, logged)
    end.
Proof.
  unfold enhancePrompt, bind, generateContent, external, ret.
  destruct (sdk_generateContent P "gemini-2.5-flash" (enhanceTemplate prompt) (remote w))
    as [[response | e] s]; reflexivity.
Qed.

(** C3, as amended: [enhancePrompt] returns exactly the original prompt
    when the text service answers with an absent or empty text; when the
    call to the text service fails, [enhancePrompt] throws that failure to
    its caller, and it is the caller, [handleEnhance], that absorbs it and
    keeps the prompt of the form as it was. *)
Theorem enhancer_falls_back_or_rethrows {R : Type} (P : Platform R)
    (prompt : string) (w : World R) :
  (forall response s,
     sdk_generateContent P "gemini-2.5-flash" (enhanceTemplate prompt) (remote w)
     = (Ok response, s) ->
     text response = None \/ text response = Some EmptyString ->
     fst (enhancePrompt P prompt w) = Ok prompt) /\
  (forall e s,
     sdk_generateContent P "gemini-2.5-flash" (enhanceTemplate prompt) (remote w)
     = (Throw e, s) ->
     fst (enhancePrompt P prompt w) = Throw e /\
     forall busy,
       fst (handleEnhance P {| form_prompt := prompt; isEnhancing := busy |} w)
       = {| form_prompt := prompt; isEnhancing := if truthy (trim prompt) then false else busy |}).
Proof.
  split.
  - intros response s Hcall Hempty. rewrite enhancePrompt_unfold. cbv zeta.
    rewrite Hcall. cbn [fst snd].
    destruct Hempty as [-> | ->]; reflexivity.
  - intros e s Hcall. split.
    + rewrite enhancePrompt_unfold. cbv zeta. now rewrite Hcall.
    + intro busy. unfold handleEnhance. cbn [form_prompt].
      destruct (truthy (trim prompt)); [| reflexivity].
      cbn [negb]. rewrite enhancePrompt_unfold. cbv zeta. now rewrite Hcall.
Qed.

Lemma enhancer_falls_back_or_rethrows_witness :
  fst (enhancePrompt readyAtOnce "a fox" startWorld) = Ok "a fox" /\
  fst (enhancePrompt enhancerDown "a fox" startWorld) = Throw serviceUnavailable /\
  fst (handleEnhance enhancerDown {| form_prompt := "a fox"; isEnhancing := false |}
         startWorld)
  = {| form_prompt := "a fox"; isEnhancing := false |}.
Proof.
  split; [| split].
  - exact (proj1 (enhancer_falls_back_or_rethrows readyAtOnce "a fox" startWorld)
             emptyAnswer 0 eq_refl (or_intror eq_refl)).
  - exact (proj1 (proj2 (enhancer_falls_back_or_rethrows enhancerDown "a fox" startWorld)
                    serviceUnavailable 0 eq_refl)).
  - exact (proj2 (proj2 (enhancer_falls_back_or_rethrows enhancerDown "a fox" startWorld)
                    serviceUnavailable 0 eq_refl) false).
Defined.

(** C3, as stated, fails: when the text service is down, [enhancePrompt]
    does throw to its caller instead of returning the prompt. *)
Lemma enhancer_throws_when_service_fails :
  fst (sdk_generateContent enhancerDown "gemini-2.5-flash" (enhanceTemplate "a fox") 0)
  = Throw serviceUnavailable /\
  fst (enhancePrompt enhancerDown "a fox" startWorld) = Throw serviceUnavailable /\
  fst (enhancePrompt enhancerDown "a fox" startWorld) <> Ok "a fox".
Proof.
  split; [reflexivity |]. split; [reflexivity | discriminate].
Qed.

(** * Further properties of the request builder *)

Lemma buildPayload_media (params : GenerateVideoParams)
    (payload : GenerateVideosParameters) :
  buildPayload params = Ok payload ->
  payload_image payload
  = (if mode_eqb (mode params) FRAMES_TO_VIDEO
     then option_map toImage (startFrame params) else None) /\
  payload_video payload
  = (if mode_eqb (mode params) EXTEND_VIDEO
     then inputVideoObject params else None).
Proof.
  unfold buildPayload.
  destruct (mode params); try destruct (inputVideoObject params);
    intro H; inversion H; subst; simpl; auto.
Qed.

(** X1: a built payload lacks the aspect ratio exactly when the request
    is an extension; in every other mode it carries the user's choice. *)
Theorem aspect_ratio_omitted_only_when_extending (params : GenerateVideoParams)
    (payload : GenerateVideosParameters) :
  buildPayload params = Ok payload ->
  (cfg_aspectRatio (payload_config payload) = None <-> mode params = EXTEND_VIDEO) /\
  (mode params <> EXTEND_VIDEO ->
   cfg_aspectRatio (payload_config payload) = Some (aspectRatio params)).
Proof.
  intro Hb. apply buildPayload_fields in Hb as (_ & -> & _). simpl.
  destruct (mode params); simpl; repeat split; intros;
    try reflexivity; try discriminate; try contradiction.
Qed.

Lemma aspect_ratio_omitted_only_when_extending_witness :
  buildPayload (extendParams "P") = Ok extendPayload /\
  (cfg_aspectRatio (payload_config extendPayload) = None <->
   mode (extendParams "P") = EXTEND_VIDEO).
Proof.
  split; [reflexivity |].
  exact (proj1 (aspect_ratio_omitted_only_when_extending
                  (extendParams "P") extendPayload eq_refl)).
Defined.

(** X2: a looping frames-to-video request ends on its own start frame: the
    start image and the last frame of the payload are the same image,
    whatever end frame the parameters still hold; without a start frame the
    payload has neither, the held end frame being dropped. *)
Theorem looping_closes_on_start_frame (params : GenerateVideoParams)
    (payload : GenerateVideosParameters) :
  mode params = FRAMES_TO_VIDEO ->
  isLooping params = true ->
  buildPayload params = Ok payload ->
  payload_image payload = option_map toImage (startFrame params) /\
  cfg_lastFrame (payload_config payload) = payload_image payload.
Proof.
  intros Hm Hl Hb.
  pose proof (buildPayload_media _ _ Hb) as [Hi _].
  apply buildPayload_fields in Hb as (_ & Hc & _).
  rewrite Hi, Hc, Hm. simpl.
  unfold buildLastFrame, effectiveEndFrame. rewrite Hm, Hl. simpl.
  now destruct (startFrame params).
Qed.

Lemma looping_closes_on_start_frame_witness :
  payload_image
    {| payload_model := VEO_FAST;
       payload_config := buildConfig loopParams;
       payload_prompt := None;
       payload_image := Some (toImage (sampleImage "start"));
       payload_video := None |}
  = option_map toImage (startFrame loopParams) /\
  cfg_lastFrame (buildConfig loopParams) = Some (toImage (sampleImage "start")).
Proof.
  exact (looping_closes_on_start_frame loopParams
           {| payload_model := VEO_FAST;
              payload_config := buildConfig loopParams;
              payload_prompt := None;
              payload_image := Some (toImage (sampleImage "start"));
              payload_video := None |}
           eq_refl eq_refl eq_refl).
Defined.

(** X3: every built payload is consistent with its mode.  A start image
    is sent only by frames-to-video, a video object exactly by an extension,
    never both; a last frame only by frames-to-video or an extension;
    reference images only by references-to-video or an extension.  A
    text-to-video payload carries no media at all, whatever the parameters
    still hold. *)
Theorem payload_media_follow_mode (params : GenerateVideoParams)
    (payload : GenerateVideosParameters) :
  buildPayload params = Ok payload ->
  (payload_image payload <> None -> mode params = FRAMES_TO_VIDEO) /\
  (payload_video payload <> None <-> mode params = EXTEND_VIDEO) /\
  (payload_image payload = None \/ payload_video payload = None) /\
  (cfg_lastFrame (payload_config payload) <> None ->
   mode params = FRAMES_TO_VIDEO \/ mode params = EXTEND_VIDEO) /\
  (cfg_referenceImages (payload_config payload) <> None ->
   mode params = REFERENCES_TO_VIDEO \/ mode params = EXTEND_VIDEO) /\
  (mode params = TEXT_TO_VIDEO ->
   payload_image payload = None /\ payload_video payload = None /\
   cfg_lastFrame (payload_config payload) = None /\
   cfg_referenceImages (payload_config payload) = None) /\
  numberOfVideos (payload_config payload) = 1.
Proof.
  intro Hb.
  pose proof (buildPayload_media _ _ Hb) as [Hi Hv].
  pose proof (buildPayload_fields _ _ Hb) as (_ & Hc & _).
  assert (Hobj : mode params = EXTEND_VIDEO -> inputVideoObject params <> None).
  { intros Hm Hnone. unfold buildPayload in Hb.
    rewrite Hm, Hnone in Hb. discriminate. }
  rewrite Hi, Hv, Hc. simpl.
  unfold buildLastFrame, buildReferenceImages.
  destruct (mode params) eqn:Hm; simpl;
    repeat match goal with |- _ /\ _ => split end;
    try reflexivity; try (intro H; discriminate H);
    try (intro H; now contradiction H);
    try (split; intro H; try discriminate H; try now contradiction H);
    auto.
  - destruct (effectiveEndFrame params); intro H; now contradiction H.
  - intros _. destruct (effectiveEndFrame params); repeat split.
  - destruct (effectiveEndFrame params); intro H; now contradiction H.
Qed.

Lemma payload_media_follow_mode_witness :
  buildPayload leftoverTextParams = Ok foxPayload /\
  payload_image foxPayload = None /\ payload_video foxPayload = None /\
  cfg_lastFrame (payload_config foxPayload) = None /\
  cfg_referenceImages (payload_config foxPayload) = None.
Proof.
  split; [reflexivity |].
  exact (proj1 (proj2 (proj2 (proj2 (proj2 (proj2
           (payload_media_follow_mode leftoverTextParams foxPayload eq_refl))))))
         eq_refl).
Defined.

(** X4: the builder has one way to fail.  It throws exactly when the
    request is an extension without a video object, and then with the
    message about the missing input video object; every other parameter set
    yields a payload. *)
Theorem builder_fails_only_for_orphan_extension (params : GenerateVideoParams) :
  (forall e, buildPayload params = Throw e ->
             mode params = EXTEND_VIDEO /\ inputVideoObject params = None /\
             message e = "An input video object is required to extend a video.") /\
  (mode params = EXTEND_VIDEO -> inputVideoObject params = None ->
   buildPayload params = Throw {| message := MSG_INPUT_VIDEO_REQUIRED |}) /\
  (mode params <> EXTEND_VIDEO \/ inputVideoObject params <> None ->
   exists payload, buildPayload params = Ok payload).
Proof.
  split; [| split].
  - intros e He. unfold buildPayload in He.
    destruct (mode params); try discriminate.
    destruct (inputVideoObject params); [discriminate |].
    inversion He. auto.
  - intros Hm Hv. unfold buildPayload. now rewrite Hm, Hv.
  - apply buildPayload_total.
Qed.

Lemma builder_fails_only_for_orphan_extension_witness :
  buildPayload orphanExtendParams = Throw {| message := MSG_INPUT_VIDEO_REQUIRED |} /\
  exists payload, buildPayload whitespaceParams = Ok payload.
Proof.
  split.
  - exact (proj1 (proj2 (builder_fails_only_for_orphan_extension orphanExtendParams))
             eq_refl eq_refl).
  - apply (proj2 (proj2 (builder_fails_only_for_orphan_extension whitespaceParams))).
    left. discriminate.
Defined.

(** X5: the raw input video file plays no part in the request: two
    parameter sets that differ only in [inputVideo] build the same payload,
    or fail alike. *)
Theorem raw_video_file_is_ignored (params : GenerateVideoParams)
    (other : option VideoFile) :
  buildPayload
    {| prompt := prompt params; model := model params;
       aspectRatio := aspectRatio params; resolution := resolution params;
       mode := mode params;
       startFrame := startFrame params; endFrame := endFrame params;
       referenceImages := referenceImages params;
       styleImage := styleImage params;
       inputVideo := other;
       inputVideoObject := inputVideoObject params;
       isLooping := isLooping params |}
  = buildPayload params.
Proof.
  unfold buildPayload, selectModel, buildConfig, buildPrompt,
    buildReferenceImages, buildLastFrame, effectiveEndFrame.
  reflexivity.
Qed.

(** X6: the payload names the user's model exactly as long as there is no
    reference image.  The switch to the full model also happens in
    text-to-video and frames-to-video, where the reference images themselves
    are left out of the payload. *)
Theorem model_kept_without_reference_images (params : GenerateVideoParams)
    (payload : GenerateVideosParameters) :
  buildPayload params = Ok payload ->
  (referenceImages params = None \/ referenceImages params = Some [] ->
   payload_model payload = model params) /\
  (forall img others,
     referenceImages params = Some (img :: others) ->
     mode params = TEXT_TO_VIDEO \/ mode params = FRAMES_TO_VIDEO ->
     payload_model payload = VEO /\
     cfg_referenceImages (payload_config payload) = None).
Proof.
  intro Hb. apply buildPayload_fields in Hb as (-> & -> & _).
  unfold selectModel. split.
  - intros [-> | ->]; reflexivity.
  - intros img others -> Hm. split; [reflexivity |]. simpl.
    unfold buildReferenceImages. now destruct Hm as [-> | ->].
Qed.

Lemma model_kept_without_reference_images_witness :
  model (referenceParams TEXT_TO_VIDEO) = VEO_FAST /\
  payload_model
    {| payload_model := VEO;
       payload_config := buildConfig (referenceParams TEXT_TO_VIDEO);
       payload_prompt := Some "a fox";
       payload_image := None;
       payload_video := None |} = VEO /\
  cfg_referenceImages (buildConfig (referenceParams TEXT_TO_VIDEO)) = None.
Proof.
  split; [reflexivity |].
  exact (proj2 (model_kept_without_reference_images
                  (referenceParams TEXT_TO_VIDEO)
                  {| payload_model := VEO;
                     payload_config := buildConfig (referenceParams TEXT_TO_VIDEO);
                     payload_prompt := Some "a fox";
                     payload_image := None;
                     payload_video := None |}
                  eq_refl)
           (sampleImage "a") [sampleImage "b"] eq_refl (or_introl eq_refl)).
Defined.

(** * Further properties of the driver *)

Lemma fetchCount_app (a b : list Event) :
  fetchCount (a ++ b) = fetchCount a + fetchCount b.
Proof. unfold fetchCount. now rewrite filter_app, length_app. Qed.

Lemma submitCount_app (a b : list Event) :
  submitCount (a ++ b) = submitCount a + submitCount b.
Proof. unfold submitCount. now rewrite filter_app, length_app. Qed.

Lemma waitedMs_app (a b : list Event) :
  waitedMs (a ++ b) = (waitedMs a + waitedMs b)%N.
Proof.
  induction a as [| ev a IH]; [reflexivity |].
  simpl. rewrite IH. destruct ev; lia.
Qed.

Lemma waitedMs_waitPollLog (polled : list Operation) :
  waitedMs (waitPollLog polled) = (10000 * N.of_nat (length polled))%N.
Proof.
  induction polled as [| operation polled IH]; [reflexivity |].
  change (waitedMs (waitPollLog (operation :: polled)))
    with (10000 + waitedMs (waitPollLog polled))%N.
  rewrite IH. simpl length. lia.
Qed.

Lemma fetchCount_waitPollLog (polled : list Operation) :
  fetchCount (waitPollLog polled) = 0.
Proof.
  induction polled as [| operation polled IH]; [reflexivity | exact IH].
Qed.

Lemma submitCount_waitPollLog (polled : list Operation) :
  submitCount (waitPollLog polled) = 0.
Proof.
  induction polled as [| operation polled IH]; [reflexivity | exact IH].
Qed.

(** Whatever the service answers, the loop polls only handles that are not
    done, and no more of them than the cap leaves room for. *)
Lemma pollLoop_budget {R : Type} (P : Platform R) (n : nat) :
  forall (attempts : nat) (operation : Operation) (w : World R),
    MAX_ATTEMPTS - attempts <= n ->
    exists polled,
      calls (snd (pollLoop P attempts operation w)) = calls w ++ waitPollLog polled /\
      length polled <= MAX_ATTEMPTS - attempts /\
      Forall (fun o => is_done o = false) polled.
Proof.
  induction n as [| n IH]; intros attempts operation w Hn;
    rewrite pollLoop_step.
  - assert (Hge : (attempts <? MAX_ATTEMPTS)%nat = false)
      by (apply Nat.ltb_ge; lia).
    rewrite Hge, andb_false_r. exists []. simpl.
    rewrite app_nil_r. repeat split; [lia | constructor].
  - destruct (negb (is_done operation) && (attempts <? MAX_ATTEMPTS)%nat) eqn:Hc.
    + apply andb_prop in Hc as [Hnd Hlt].
      apply negb_true_iff in Hnd. apply Nat.ltb_lt in Hlt.
      rewrite wait_then_poll.
      destruct (sdk_getVideosOperation P operation (remote w)) as [[next | e] s];
        cbn [fst snd].
      * destruct (IH (S attempts) next
                    {| remote := s; calls := calls w ++ waitPollLog [operation] |})
          as (polled & Hlog & Hlen & Hall); [lia |].
        exists (operation :: polled). rewrite Hlog. cbn [calls].
        repeat split.
        -- rewrite <- app_assoc. reflexivity.
        -- cbn [length]. lia.
        -- now constructor.
      * exists [operation]. cbn [calls]. repeat split.
        -- cbn [length]. lia.
        -- now repeat constructor.
    + exists []. simpl. rewrite app_nil_r. repeat split; [lia | constructor].
Qed.

Lemma resolve_calls {R : Type} (P : Platform R) (operation : Operation)
    (w : World R) :
  calls (snd (resolve P operation w)) = calls w \/
  exists url, calls (snd (resolve P operation w)) = calls w ++ [CallFetch url].
Proof.
  destruct (locate operation) as [[videoObject locator] | e] eqn:Hl.
  - rewrite (resolve_found P _ _ _ w Hl).
    destruct (decodeURIComponent P locator) as [url | e] eqn:Hd.
    + right. exists (url ++ "&key=" ++ showOptional (API_KEY P))%string.
      rewrite (download_decoded P _ _ _ w Hd). cbv zeta.
      destruct (fst (net_fetch P _ (remote w))) as [res | e]; [| reflexivity].
      destruct (negb (ok res)); reflexivity.
    + left. unfold download, bind, lift. now rewrite Hd.
  - left. now rewrite (resolve_not_found P _ _ w Hl).
Qed.

(** The calls of a run, in their order. *)
Lemma generateVideo_log_shape {R : Type} (P : Platform R)
    (params : GenerateVideoParams) (w : World R) :
  snd (generateVideo P params w) = w \/
  exists payload polled rest,
    buildPayload params = Ok payload /\
    calls (snd (generateVideo P params w))
    = calls w ++ CallGenerateVideos payload :: waitPollLog polled ++ rest /\
    length polled <= MAX_ATTEMPTS /\
    Forall (fun o => is_done o = false) polled /\
    (rest = [] \/ exists url, rest = [CallFetch url]).
Proof.
  destruct (buildPayload params) as [payload | e] eqn:Hb.
  - right. exists payload.
    destruct (generateVideos P payload w) as [[submitted | e] w1] eqn:Hs.
    + rewrite (generateVideo_submitted P _ _ _ _ _ Hb Hs).
      pose proof (generateVideos_log P _ _ _ _ Hs) as Hlog1.
      destruct (pollLoop_budget P MAX_ATTEMPTS 0 submitted w1) as
        (polled & Hlog & Hlen & Hall); [lia |].
      unfold bind at 1.
      destruct (pollLoop P 0 submitted w1) as [[operation | e] w2] eqn:Hloop;
        cbn [snd] in Hlog.
      * destruct (negb (is_done operation)).
        -- exists polled, []. cbn [throw snd]. rewrite Hlog, Hlog1, app_nil_r.
           rewrite <- app_assoc. repeat split; auto; try lia.
        -- destruct (resolve_calls P operation w2) as [Hr | (url & Hr)];
             rewrite Hr, Hlog, Hlog1.
           ++ exists polled, []. rewrite app_nil_r, <- app_assoc.
              repeat split; auto; try lia.
           ++ exists polled, [CallFetch url]. rewrite <- !app_assoc.
              repeat split; eauto; try lia.
      * exists polled, []. cbn [snd]. rewrite Hlog, Hlog1, app_nil_r.
        rewrite <- app_assoc. repeat split; auto; try lia.
    + exists [], []. unfold generateVideo, bind, lift. rewrite Hb, Hs.
      cbn [snd]. rewrite (generateVideos_log P _ _ _ _ Hs).
      repeat split; auto; try (unfold MAX_ATTEMPTS; cbn [length]; lia).
  - left. unfold generateVideo, bind, lift. now rewrite Hb.
Qed.

(** X7: the budget of a run, whatever the service does.  [generateVideo]
    either changes nothing at all (the validation failure), or submits the
    built payload once, then alternates waits of 10 000 ms and status
    requests at most 60 times, each request for a handle that is not done,
    then fetches at most once.  Hence at most one submission, 60 status
    requests, one download and ten minutes of waiting. *)
Theorem run_stays_within_budget {R : Type} (P : Platform R)
    (params : GenerateVideoParams) (w : World R) :
  (snd (generateVideo P params w) = w \/
   exists payload polled rest,
     buildPayload params = Ok payload /\
     calls (snd (generateVideo P params w))
     = calls w ++ CallGenerateVideos payload :: waitPollLog polled ++ rest /\
     length polled <= 60 /\
     Forall (fun o => is_done o = false) polled /\
     (rest = [] \/ exists url, rest = [CallFetch url])) /\
  submitCount (calls (snd (generateVideo P params w))) <= submitCount (calls w) + 1 /\
  pollCount (calls (snd (generateVideo P params w))) <= pollCount (calls w) + 60 /\
  fetchCount (calls (snd (generateVideo P params w))) <= fetchCount (calls w) + 1 /\
  (waitedMs (calls (snd (generateVideo P params w))) <= waitedMs (calls w) + 600000)%N.
Proof.
  pose proof (generateVideo_log_shape P params w) as Hshape.
  split; [exact Hshape |].
  destruct Hshape as [-> | (payload & polled & rest & _ & -> & Hlen & _ & Hrest)].
  - repeat split; lia.
  - unfold MAX_ATTEMPTS in Hlen.
    change (CallGenerateVideos payload :: waitPollLog polled ++ rest)
      with ([CallGenerateVideos payload] ++ waitPollLog polled ++ rest).
    rewrite !submitCount_app, !pollCount_app, !fetchCount_app, !waitedMs_app.
    rewrite submitCount_waitPollLog, pollCount_waitPollLog,
      fetchCount_waitPollLog, waitedMs_waitPollLog.
    destruct Hrest as [-> | (url & ->)];
      cbn [submitCount pollCount fetchCount waitedMs filter length fold_right];
      repeat split; lia.
Qed.

(** X8: a rejection by the service surfaces unchanged and ends the run.
    When the submission rejects, [generateVideo] throws that error after the
    submission alone.  When, after [j] pending observations, the next status
    request rejects, [generateVideo] throws that error after [j] status
    requests; in both cases nothing is downloaded. *)
Theorem service_rejections_surface {R : Type} (P : Platform R)
    (params : GenerateVideoParams) (payload : GenerateVideosParameters)
    (w : World R) :
  buildPayload params = Ok payload ->
  (forall e w1,
     generateVideos P payload w = (Throw e, w1) ->
     generateVideo P params w = (Throw e, w1) /\
     calls w1 = calls w ++ [CallGenerateVideos payload]) /\
  (forall submitted w1 j e we,
     generateVideos P payload w = (Ok submitted, w1) ->
     1 <= j <= MAX_ATTEMPTS ->
     (forall i, 1 <= i <= j -> pendingAt P i submitted w1) ->
     observation P (S j) submitted w1 = (Throw e, we) ->
     generateVideo P params w = (Throw e, we) /\
     pollCount (calls we) = pollCount (calls w1) + j /\
     fetchCount (calls we) = fetchCount (calls w1)).
Proof.
  intro Hb. split.
  - intros e w1 Hs. split.
    + unfold generateVideo, bind, lift. now rewrite Hb, Hs.
    + exact (generateVideos_log P _ _ _ _ Hs).
  - intros submitted w1 j e we Hs Hj Hpending Hrej.
    unfold observation in Hrej. simpl in Hrej. rewrite Nat.sub_0_r in Hrej.
    destruct j as [| j]; [lia |].
    assert (Hobs : forall n, n <= j ->
              exists operation' w',
                repoll P n submitted w1 = (Ok operation', w') /\
                is_done operation' = false).
    { intros n Hn. destruct (Hpending (S n)) as (o & w' & Ho & Hd); [lia |].
      unfold observation in Ho. simpl in Ho. rewrite Nat.sub_0_r in Ho.
      now exists o, w'. }
    destruct (Hobs j (Nat.le_refl _)) as (last & wj & Hrun & Hnot).
    assert (Hstep : (sleep 10000 ;;; getVideosOperation P last) wj = (Throw e, we)).
    { clear - Hrun Hrej. revert submitted w1 Hrun Hrej.
      induction j as [| j IH]; intros submitted w1 Hrun Hrej.
      - inversion Hrun; subst. simpl in Hrej. unfold bind at 1 in Hrej.
        destruct ((sleep 10000 ;;; getVideosOperation P last) wj)
          as [[next | e'] w'] eqn:Hs; [discriminate | exact Hrej].
      - simpl in Hrun, Hrej. unfold bind at 1 in Hrun. unfold bind at 1 in Hrej.
        destruct ((sleep 10000 ;;; getVideosOperation P submitted) w1)
          as [[next | e'] w'] eqn:Hs; [| discriminate].
        exact (IH next w' Hrun Hrej). }
    assert (Hloop : pollLoop P 0 submitted w1 = (Throw e, we)).
    { rewrite (pollLoop_follows_repoll P j 0 submitted w1);
        [| lia | intros n Hn; apply Hobs; lia].
      unfold bind. rewrite Hrun, pollLoop_step, Hnot.
      assert (Hlt : (0 + j <? MAX_ATTEMPTS)%nat = true)
        by (apply Nat.ltb_lt; simpl; lia).
      rewrite Hlt. simpl negb. simpl andb. now rewrite Hstep. }
    destruct (repoll_log P _ _ _ _ _ Hrun) as (polled & Hlen & Hlog).
    assert (Hcalls : calls we = calls wj ++ waitPollLog [last]).
    { rewrite wait_then_poll in Hstep. inversion Hstep. reflexivity. }
    split; [| split].
    + rewrite (generateVideo_submitted P _ _ _ _ _ Hb Hs).
      unfold bind at 1. rewrite Hloop. reflexivity.
    + rewrite Hcalls, Hlog, !pollCount_app, !pollCount_waitPollLog, Hlen.
      simpl length. lia.
    + rewrite Hcalls, Hlog, !fetchCount_app, !fetchCount_waitPollLog. lia.
Qed.

Lemma service_rejections_surface_witness :
  generateVideo (flaky 0) (textParams "a fox") startWorld
  = (Throw serviceUnavailable, submittedWorld) /\
  generateVideo (flaky 2) (textParams "a fox") startWorld
  = (Throw serviceUnavailable,
     {| remote := 2;
        calls := calls submittedWorld
                 ++ waitPollLog [pendingOperation; pendingOperation] |}).
Proof.
  split.
  - exact (proj1 (proj1 (service_rejections_surface (flaky 0) (textParams "a fox")
                           foxPayload startWorld eq_refl)
                    serviceUnavailable submittedWorld eq_refl)).
  - refine (proj1 (proj2 (service_rejections_surface (flaky 2) (textParams "a fox")
                            foxPayload startWorld eq_refl)
                     pendingOperation submittedWorld 2 serviceUnavailable
                     {| remote := 2;
                        calls := calls submittedWorld
                                 ++ waitPollLog [pendingOperation; pendingOperation] |}
                     eq_refl _ _ eq_refl)).
    + unfold MAX_ATTEMPTS. lia.
    + intros i Hi.
      do 3 (destruct i as [| i];
            [ first [ lia | eexists; eexists; split; reflexivity ] | ]).
      lia.
Defined.

Lemma locate_found_inv (operation : Operation) (videoObject : Video)
    (locator : string) :
  locate operation = Ok (videoObject, locator) ->
  uri videoObject = Some locator /\ locator <> EmptyString /\
  exists resp others,
    response operation = Some resp /\
    generatedVideos resp = Some ({| video := Some videoObject |} :: others).
Proof.
  unfold locate.
  destruct (response operation) as [resp |] eqn:Hr; [| discriminate].
  destruct (generatedVideos resp) as [[| [first] others] |] eqn:Hv;
    try discriminate.
  simpl. destruct first as [v |]; [| discriminate].
  destruct (uri v) as [loc |] eqn:Hu; [| discriminate].
  destruct (truthy loc) eqn:Ht; [| discriminate].
  intro H; inversion H; subst. repeat split.
  - exact Hu.
  - now apply truthy_nonempty.
  - now exists resp, others.
Qed.

(** A handle the loop returns is one of the observations the cap allows. *)
Lemma pollLoop_returns_observation {R : Type} (P : Platform R) (n : nat) :
  forall (attempts : nat) (operation finished : Operation) (w w' : World R),
    MAX_ATTEMPTS - attempts <= n ->
    pollLoop P attempts operation w = (Ok finished, w') ->
    exists j,
      attempts + j <= Nat.max attempts MAX_ATTEMPTS /\
      repoll P j operation w = (Ok finished, w').
Proof.
  induction n as [| n IH]; intros attempts operation finished w w' Hn;
    rewrite pollLoop_step.
  - assert (Hge : (attempts <? MAX_ATTEMPTS)%nat = false)
      by (apply Nat.ltb_ge; lia).
    rewrite Hge, andb_false_r. intro H; inversion H; subst.
    exists 0. split; [lia | reflexivity].
  - destruct (negb (is_done operation) && (attempts <? MAX_ATTEMPTS)%nat) eqn:Hc.
    + apply andb_prop in Hc as [_ Hlt]. apply Nat.ltb_lt in Hlt.
      destruct ((sleep 10000 ;;; getVideosOperation P operation) w)
        as [[next | e] w1] eqn:Hstep; [| discriminate].
      intro Hrun.
      destruct (IH (S attempts) next finished w1 w') as (j & Hj & Hobs);
        [lia | exact Hrun |].
      exists (S j). split; [lia |].
      now rewrite (repoll_succ P j _ _ _ _ Hstep).
    + intro H; inversion H; subst. exists 0. split; [lia | reflexivity].
Qed.

(** X9: a result is never partial.  When [generateVideo] returns, the
    payload was built and submitted; the handle the run stopped on is one of
    the at most 61 observations of the submitted job and it is done; its
    first video is the returned video object, whose locator, percent-decoded,
    is the returned URI; the last call of the run is the download of that URI
    with the credential; the answer of that very download has a 2xx status,
    and the returned bytes and object URL are those of that answer. *)
Theorem success_is_a_complete_download {R : Type} (P : Platform R)
    (params : GenerateVideoParams) (result : GenerationResult) (w w' : World R) :
  generateVideo P params w = (Ok result, w') ->
  exists payload submitted w1 k finished w2 locator res,
    buildPayload params = Ok payload /\
    generateVideos P payload w = (Ok submitted, w1) /\
    1 <= k <= S MAX_ATTEMPTS /\
    observation P k submitted w1 = (Ok finished, w2) /\
    is_done finished = true /\
    locate finished = Ok (result_video result, locator) /\
    uri (result_video result) = Some locator /\
    locator <> EmptyString /\
    decodeURIComponent P locator = Ok (result_uri result) /\
    net_fetch P (result_uri result ++ "&key=" ++ showOptional (API_KEY P))%string
      (remote w2)
    = (Ok res, remote w') /\
    calls w' = calls w2 ++ [CallFetch (result_uri result ++ "&key="
                                       ++ showOptional (API_KEY P))%string] /\
    (200 <= status res <= 299)%N /\
    blob result = body res /\
    objectUrl result = createObjectURL P (body res).
Proof.
  intro Hrun. unfold generateVideo in Hrun.
  unfold bind at 1, lift in Hrun.
  destruct (buildPayload params) as [payload | e] eqn:Hb; [| discriminate].
  unfold bind at 1 in Hrun.
  destruct (generateVideos P payload w) as [[submitted | e] w1] eqn:Hs;
    [| discriminate].
  unfold bind at 1 in Hrun.
  destruct (pollLoop P 0 submitted w1) as [[finished | e] w2] eqn:Hloop;
    [| discriminate].
  destruct (is_done finished) eqn:Hd; [| discriminate]. cbn [negb] in Hrun.
  destruct (locate finished) as [[videoObject locator] | e] eqn:Hl;
    [| rewrite (resolve_not_found P _ _ w2 Hl) in Hrun; discriminate].
  rewrite (resolve_found P _ _ _ w2 Hl) in Hrun.
  destruct (decodeURIComponent P locator) as [url | e] eqn:Hdec;
    [| unfold download, bind, lift in Hrun; rewrite Hdec in Hrun; discriminate].
  rewrite (download_decoded P _ _ _ w2 Hdec) in Hrun. cbv zeta in Hrun.
  destruct (net_fetch P (url ++ "&key=" ++ showOptional (API_KEY P))%string
              (remote w2)) as [[res | e] s] eqn:Hfetch;
    cbn [fst snd] in Hrun; [| discriminate].
  destruct (ok res) eqn:Hok; [| discriminate]. cbn [negb] in Hrun.
  inversion Hrun; subst result w'.
  cbn [result_video result_uri blob objectUrl calls remote].
  destruct (locate_found_inv _ _ _ Hl) as (Hu & Hne & _).
  destruct (pollLoop_returns_observation P MAX_ATTEMPTS 0 submitted finished w1 w2)
    as (j & Hj & Hobs); [lia | exact Hloop |].
  exists payload, submitted, w1, (S j), finished, w2, locator, res.
  unfold ok in Hok. apply andb_prop in Hok as [Hlo Hhi].
  apply N.leb_le in Hlo. apply N.leb_le in Hhi.
  unfold observation. cbn [Nat.sub]. rewrite Nat.sub_0_r.
  repeat split; try assumption; try reflexivity; lia.
Qed.

Lemma success_is_a_complete_download_witness :
  exists payload submitted w1 k finished w2 locator res,
    buildPayload (textParams "a fox") = Ok payload /\
    generateVideos readyAtOnce payload startWorld = (Ok submitted, w1) /\
    1 <= k <= S MAX_ATTEMPTS /\
    observation readyAtOnce k submitted w1 = (Ok finished, w2) /\
    is_done finished = true /\
    locate finished = Ok (sampleVideo, locator) /\
    uri sampleVideo = Some locator /\
    locator <> EmptyString /\
    decodeURIComponent readyAtOnce locator = Ok sampleUrl /\
    net_fetch readyAtOnce (sampleUrl ++ "&key=" ++ showOptional (Some "KEY"))%string
      (remote w2)
    = (Ok res, remote downloadedWorld) /\
    calls downloadedWorld
    = calls w2 ++ [CallFetch (sampleUrl ++ "&key=" ++ showOptional (Some "KEY"))%string] /\
    (200 <= status res <= 299)%N /\
    "bytes" = body res /\
    "blob:bytes" = createObjectURL readyAtOnce (body res).
Proof.
  apply (success_is_a_complete_download readyAtOnce (textParams "a fox")
           {| objectUrl := "blob:bytes"; blob := "bytes";
              result_uri := sampleUrl; result_video := sampleVideo |}
           startWorld downloadedWorld).
  rewrite (generateVideo_submitted readyAtOnce (textParams "a fox") foxPayload
             finishedOperation startWorld submittedWorld eq_refl eq_refl).
  unfold bind at 1.
  rewrite pollLoop_stops_when_done by reflexivity.
  reflexivity.
Defined.

(** * Properties of the string helpers *)

Lemma trimEnd_keeps_head (c : ascii) (rest : string) :
  isWhiteSpace c = false ->
  trimEnd (String c rest) = String c (trimEnd rest).
Proof.
  intro Hc. simpl. rewrite Hc. now destruct (trimEnd rest).
Qed.

Lemma trimStart_head (s : string) :
  trimStart s = EmptyString \/
  exists c rest, trimStart s = String c rest /\ isWhiteSpace c = false.
Proof.
  induction s as [| c rest IH]; [now left |].
  simpl. destruct (isWhiteSpace c) eqn:Hc; [exact IH |].
  right. now exists c, rest.
Qed.

Lemma trimStart_blank (s : string) :
  trimStart s = EmptyString <-> isBlank s = true.
Proof.
  induction s as [| c rest IH]; simpl; [tauto |].
  destruct (isWhiteSpace c); simpl; [exact IH |].
  split; discriminate.
Qed.

(** A trimmed string is empty exactly when the string is blank. *)
Lemma trim_truthy (s : string) : truthy (trim s) = negb (isBlank s).
Proof.
  unfold trim.
  destruct (trimStart_head s) as [He | (c & rest & He & Hc)].
  - rewrite He. apply trimStart_blank in He. now rewrite He.
  - rewrite He, (trimEnd_keeps_head _ _ Hc). simpl.
    destruct (isBlank s) eqn:Hb; [| reflexivity].
    apply trimStart_blank in Hb. rewrite Hb in He. discriminate.
Qed.

Lemma trim_head (s : string) :
  truthy (trim s) = true ->
  exists c rest, trim s = String c rest /\ isWhiteSpace c = false.
Proof.
  unfold trim.
  destruct (trimStart_head s) as [He | (c & rest & He & Hc)]; rewrite He.
  - discriminate.
  - intros _. rewrite (trimEnd_keeps_head _ _ Hc). now exists c, (trimEnd rest).
Qed.

Lemma trimEnd_idempotent (s : string) : trimEnd (trimEnd s) = trimEnd s.
Proof.
  induction s as [| c rest IH]; [reflexivity |].
  simpl. destruct (trimEnd rest) as [| k kept] eqn:Hk.
  - destruct (isWhiteSpace c) eqn:Hc; [reflexivity |].
    simpl. now rewrite Hc.
  - change (trimEnd (String c (String k kept)))
      with (match trimEnd (String k kept) with
            | EmptyString =>
                if isWhiteSpace c then EmptyString else String c EmptyString
            | String k' kept' => String c (String k' kept')
            end).
    now rewrite IH.
Qed.

(** Trimming twice is trimming once. *)
Lemma trim_idempotent (s : string) : trim (trim s) = trim s.
Proof.
  unfold trim at 2 3.
  destruct (trimStart_head s) as [He | (c & rest & He & Hc)]; rewrite He.
  - reflexivity.
  - rewrite (trimEnd_keeps_head _ _ Hc). unfold trim. simpl trimStart.
    rewrite Hc. rewrite <- (trimEnd_keeps_head _ _ Hc).
    apply trimEnd_idempotent.
Qed.

Lemma trimEnd_app (a b : string) :
  trimEnd b <> EmptyString ->
  trimEnd (a ++ b) = (a ++ trimEnd b)%string.
Proof.
  intro Hb. induction a as [| c a IH]; [reflexivity |].
  simpl. rewrite IH.
  destruct (a ++ trimEnd b)%string eqn:Hab; [| reflexivity].
  destruct a; simpl in Hab; [contradiction | discriminate].
Qed.

Lemma trim_fixed (k : string) :
  trim k = k -> k <> EmptyString ->
  trimEnd k = k /\ exists c rest, k = String c rest /\ isWhiteSpace c = false.
Proof.
  intros Hk Hne. split.
  - rewrite <- Hk at 1. unfold trim. rewrite trimEnd_idempotent. exact Hk.
  - apply truthy_nonempty in Hne. rewrite <- Hk in Hne.
    destruct (trim_head _ Hne) as (c & rest & He & Hc).
    exists c, rest. now rewrite <- Hk.
Qed.

Lemma prefix_refl (s : string) : String.prefix s s = true.
Proof.
  induction s as [| c s IH]; [reflexivity |].
  simpl. now destruct (ascii_dec c c).
Qed.

Lemma includes_self (s : string) : includes s s = true.
Proof.
  destruct s as [| c s]; [reflexivity |].
  cbn [includes]. now rewrite prefix_refl.
Qed.

Lemma includes_app_r (a b : string) : includes (a ++ b) b = true.
Proof.
  induction a as [| c a IH]; [apply includes_self |].
  cbn [append includes]. rewrite IH.
  now destruct (String.prefix b (String c (a ++ b))).
Qed.

Lemma string_append_assoc (a b c : string) :
  ((a ++ b) ++ c = a ++ b ++ c)%string.
Proof.
  induction a as [| x a IH]; [reflexivity |]. simpl. now rewrite IH.
Qed.

Lemma toLowerCase_app (a b : string) :
  toLowerCase (a ++ b) = (toLowerCase a ++ toLowerCase b)%string.
Proof.
  induction a as [| c a IH]; [reflexivity |]. simpl. now rewrite IH.
Qed.

Lemma isBlank_app (a b : string) :
  isBlank (a ++ b) = isBlank a && isBlank b.
Proof.
  induction a as [| c a IH]; [reflexivity |].
  simpl. rewrite IH. now rewrite andb_assoc.
Qed.

(** * Properties of the form *)

Lemma blank_prompt_flag (st : PromptFormState) :
  negb (truthy (trim (st_prompt st))) = isBlank (st_prompt st).
Proof. rewrite trim_truthy. apply negb_involutive. Qed.

Lemma nonblank_nonempty (s : string) : isBlank s = false -> s <> EmptyString.
Proof. intros Hb ->. discriminate. Qed.

(** X10: [handleEnhance] does nothing for a blank prompt: no call, the
    form untouched.  For any other prompt it makes exactly one call, to
    [gemini-2.5-flash] with the instruction wrapped around the prompt, ends
    with [isEnhancing] off, and never leaves the prompt empty, whatever the
    text service did. *)
Theorem enhance_button_behaviour {R : Type} (P : Platform R)
    (st : FormState) (w : World R) :
  (isBlank (form_prompt st) = true -> handleEnhance P st w = (st, w)) /\
  (isBlank (form_prompt st) = false ->
   calls (snd (handleEnhance P st w))
   = calls w ++ [CallGenerateContent "gemini-2.5-flash"
                   (enhanceTemplate (form_prompt st))] /\
   isEnhancing (fst (handleEnhance P st w)) = false /\
   form_prompt (fst (handleEnhance P st w)) <> EmptyString).
Proof.
  unfold handleEnhance. rewrite trim_truthy, negb_involutive.
  split; intro Hb; rewrite Hb; [reflexivity |].
  rewrite enhancePrompt_unfold. cbv zeta.
  destruct (sdk_generateContent P "gemini-2.5-flash"
              (enhanceTemplate (form_prompt st)) (remote w)) as [[response | e] s];
    cbn [fst snd calls isEnhancing form_prompt]; repeat split.
  - unfold textOr. destruct (text response) as [t |].
    + destruct (truthy t) eqn:Ht; [now apply truthy_nonempty |].
      now apply nonblank_nonempty.
    + now apply nonblank_nonempty.
  - now apply nonblank_nonempty.
Qed.

Lemma enhance_button_behaviour_witness :
  handleEnhance enhancerDown {| form_prompt := "   "; isEnhancing := false |} startWorld
  = ({| form_prompt := "   "; isEnhancing := false |}, startWorld) /\
  calls (snd (handleEnhance enhancerDown
                {| form_prompt := "a fox"; isEnhancing := false |} startWorld))
  = [CallGenerateContent "gemini-2.5-flash" (enhanceTemplate "a fox")].
Proof.
  split.
  - exact (proj1 (enhance_button_behaviour enhancerDown
                    {| form_prompt := "   "; isEnhancing := false |} startWorld)
             eq_refl).
  - exact (proj1 (proj2 (enhance_button_behaviour enhancerDown
                           {| form_prompt := "a fox"; isEnhancing := false |}
                           startWorld) eq_refl)).
Defined.

(** X11: what the submit button lets through always builds.  Whenever the
    button is enabled, the parameter set handed over by [handleSubmit] yields
    a payload: outside frames-to-video it has a prompt; in frames-to-video it
    has a start image; in references-to-video it names the full model and
    lists reference images; in an extension it carries the video object of
    the form. *)
Theorem enabled_submit_always_builds (st : PromptFormState) :
  isSubmitDisabled st = false ->
  exists payload,
    buildPayload (handleSubmit st) = Ok payload /\
    (st_generationMode st <> FRAMES_TO_VIDEO -> payload_prompt payload <> None) /\
    (st_generationMode st = FRAMES_TO_VIDEO -> payload_image payload <> None) /\
    (st_generationMode st = REFERENCES_TO_VIDEO ->
     payload_model payload = VEO /\
     cfg_referenceImages (payload_config payload) <> None) /\
    (st_generationMode st = EXTEND_VIDEO ->
     payload_video payload = st_inputVideoObject st /\
     payload_video payload <> None).
Proof.
  unfold isSubmitDisabled, submitState. rewrite blank_prompt_flag.
  assert (Hprompt : isBlank (st_prompt st) = false ->
                    buildPrompt (handleSubmit st) <> None).
  { intro Hb. unfold buildPrompt. cbn [prompt handleSubmit].
    apply nonblank_nonempty, truthy_nonempty in Hb. rewrite Hb. discriminate. }
  unfold buildPayload. cbn [mode handleSubmit startFrame inputVideoObject].
  destruct (st_generationMode st) eqn:Hm; cbn [fst].
  - intro Hb. eexists. split; [reflexivity |].
    cbn [payload_prompt payload_image payload_video payload_model payload_config].
    repeat split; try discriminate. intros _. now apply Hprompt.
  - destruct (st_startFrame st) as [frame |] eqn:Hf; [| discriminate].
    intros _. eexists. split; [reflexivity |].
    cbn [payload_prompt payload_image payload_video payload_model payload_config
         option_map].
    repeat split; try discriminate. intro H; now contradiction H.
  - intro Hd. apply orb_false_iff in Hd as [Hrefs Hb].
    apply Nat.eqb_neq in Hrefs.
    destruct (st_referenceImages st) as [| img others] eqn:Hr;
      [now contradiction Hrefs |].
    eexists. split; [reflexivity |].
    cbn [payload_prompt payload_image payload_video payload_model payload_config].
    repeat split; try discriminate.
    + intros _. now apply Hprompt.
    + unfold selectModel. cbn [referenceImages handleSubmit]. now rewrite Hr.
    + cbn [cfg_referenceImages buildConfig]. rewrite buildReferenceImages_spec.
      cbn [mode handleSubmit]. rewrite Hm. cbn [mode_eqb orb].
      unfold userReferences. cbn [referenceImages handleSubmit]. rewrite Hr.
      discriminate.
  - intro Hd. apply orb_false_iff in Hd as [Hobj Hb].
    destruct (st_inputVideoObject st) as [videoObject |]; [| discriminate].
    eexists. split; [reflexivity |].
    cbn [payload_prompt payload_image payload_video payload_model payload_config].
    repeat split; try discriminate. intros _. now apply Hprompt.
Qed.

Lemma enabled_submit_always_builds_witness :
  exists payload,
    buildPayload (handleSubmit (handleSceneDrop [sampleScene] "42" (blankForm "go on")))
    = Ok payload /\
    payload_video payload = Some sampleVideo.
Proof.
  destruct (enabled_submit_always_builds
              (handleSceneDrop [sampleScene] "42" (blankForm "go on")) eq_refl)
    as (payload & Hb & _ & _ & _ & Hext).
  exists payload. split; [exact Hb |].
  exact (proj1 (Hext eq_refl)).
Defined.

(** X12: the button never refuses silently: it is disabled exactly when
    there is a tooltip to show. *)
Theorem disabled_submit_explains_itself (st : PromptFormState) :
  isSubmitDisabled st = true <-> tooltipText st <> EmptyString.
Proof.
  unfold isSubmitDisabled, tooltipText, submitState.
  destruct (st_generationMode st); cbn [fst snd].
  - destruct (negb (truthy (trim (st_prompt st)))); split;
      try discriminate; try reflexivity; intro H; now contradiction H.
  - destruct (st_startFrame st); cbn [fst snd]; split;
      try discriminate; try reflexivity; intro H; now contradiction H.
  - destruct (length (st_referenceImages st) =? 0)%nat,
      (negb (truthy (trim (st_prompt st)))); cbn [orb andb]; split;
      try discriminate; try reflexivity; intro H; now contradiction H.
  - destruct (st_inputVideoObject st), (st_inputVideo st),
      (negb (truthy (trim (st_prompt st)))); cbn [orb andb negb]; split;
      try discriminate; try reflexivity; intro H; now contradiction H.
Qed.

Lemma settle_keeps_prompt_and_media (before after : PromptFormState) :
  st_prompt (settle before after) = st_prompt after /\
  st_generationMode (settle before after) = st_generationMode after /\
  st_startFrame (settle before after) = st_startFrame after /\
  st_endFrame (settle before after) = st_endFrame after /\
  st_referenceImages (settle before after) = st_referenceImages after /\
  st_styleImage (settle before after) = st_styleImage after /\
  st_inputVideo (settle before after) = st_inputVideo after /\
  st_inputVideoObject (settle before after) = st_inputVideoObject after /\
  st_isLooping (settle before after) = st_isLooping after.
Proof.
  unfold settle, modeEffect.
  destruct (mode_eqb (st_generationMode before) (st_generationMode after));
    [repeat split |].
  destruct (st_generationMode after) eqn:Hm; repeat split; now rewrite ?Hm.
Qed.



(** X14: dropping a scene of the gallery is what makes an extension
    possible.  An unknown scene id changes nothing.  A known scene that has
    its video object puts the form in extend mode with that object, and as
    soon as the prompt is not blank the button is enabled and the request
    built from the form carries that video object and no aspect ratio. *)
Theorem scene_drop_enables_extension (scenes : list Scene) (sceneId : string)
    (st : PromptFormState) :
  (findScene sceneId scenes = None -> handleSceneDrop scenes sceneId st = st) /\
  (forall scene videoObject,
     findScene sceneId scenes = Some scene ->
     scene_videoObject scene = Some videoObject ->
     scene_id scene = sceneId /\
     st_generationMode (handleSceneDrop scenes sceneId st) = EXTEND_VIDEO /\
     st_inputVideoObject (handleSceneDrop scenes sceneId st) = Some videoObject /\
     (isBlank (st_prompt st) = false ->
      isSubmitDisabled (handleSceneDrop scenes sceneId st) = false /\
      exists payload,
        buildPayload (handleSubmit (handleSceneDrop scenes sceneId st)) = Ok payload /\
        payload_video payload = Some videoObject /\
        cfg_aspectRatio (payload_config payload) = None)).
Proof.
  unfold handleSceneDrop. split.
  - now intros ->.
  - intros scene videoObject Hfind Hobj. rewrite Hfind.
    cbn [st_generationMode st_inputVideoObject].
    split; [| split; [reflexivity | split; [exact Hobj |]]].
    + unfold findScene in Hfind. apply find_some in Hfind as [_ Heq].
      now apply String.eqb_eq.
    + intro Hb. split.
      * unfold isSubmitDisabled, submitState.
        cbn [st_generationMode st_inputVideoObject st_inputVideo st_prompt fst].
        rewrite Hobj, trim_truthy, Hb. reflexivity.
      * unfold buildPayload.
        cbn [handleSubmit mode inputVideoObject st_generationMode
             st_inputVideoObject].
        rewrite Hobj. eexists. split; [reflexivity |]. split; reflexivity.
Qed.

Lemma scene_drop_enables_extension_witness :
  st_inputVideoObject (handleSceneDrop [sampleScene] "42" (blankForm "go on"))
  = Some sampleVideo /\
  isSubmitDisabled (handleSceneDrop [sampleScene] "42" (blankForm "go on")) = false /\
  handleSceneDrop [sampleScene] "7" (blankForm "go on") = blankForm "go on".
Proof.
  destruct (proj2 (scene_drop_enables_extension [sampleScene] "42" (blankForm "go on"))
              sampleScene sampleVideo eq_refl eq_refl)
    as (_ & _ & Hobj & Hgo).
  split; [exact Hobj |]. split.
  - exact (proj1 (Hgo eq_refl)).
  - exact (proj1 (scene_drop_enables_extension [sampleScene] "7" (blankForm "go on"))
             eq_refl).
Defined.

(** X15: a suggestion chip never stacks up.  For a keyword that is not
    empty and has no white space around it, adding it a second time leaves
    the prompt as the first addition made it. *)
Theorem add_keyword_twice_is_once (keyword prev : string) :
  trim keyword = keyword ->
  keyword <> EmptyString ->
  addKeywordTo keyword (addKeywordTo keyword prev) = addKeywordTo keyword prev.
Proof.
  intros Hk Hne.
  destruct (trim_fixed _ Hk Hne) as (Hend & c & rest & Hhead & Hc).
  assert (Hself : addKeywordTo keyword keyword = keyword).
  { unfold addKeywordTo. rewrite Hk.
    apply truthy_nonempty in Hne. rewrite Hne. cbn [negb].
    now rewrite includes_self. }
  unfold addKeywordTo at 2 3.
  destruct (truthy (trim prev)) eqn:Ht; cbn [negb]; [| exact Hself].
  destruct (includes (toLowerCase (trim prev)) (toLowerCase keyword)) eqn:Hi.
  - unfold addKeywordTo. now rewrite Ht, Hi.
  - assert (Hr : addKeywordTo keyword ((trim prev ++ ", ") ++ keyword)%string
                 = ((trim prev ++ ", ") ++ keyword)%string).
    { destruct (trim_head _ Ht) as (p & ps & Hp & Hpc).
      assert (Htrim : trim ((trim prev ++ ", ") ++ keyword)
                      = ((trim prev ++ ", ") ++ keyword)%string).
      { unfold trim at 1. rewrite Hp at 1. cbn [append trimStart].
        rewrite Hpc.
        change (String p ((ps ++ ", ") ++ keyword))%string
          with ((String p ps ++ ", ") ++ keyword)%string.
        rewrite trimEnd_app by (rewrite Hend; exact Hne).
        now rewrite Hend, Hp. }
      unfold addKeywordTo. rewrite Htrim.
      assert (Htruthy : truthy ((trim prev ++ ", ") ++ keyword) = true)
        by (rewrite Hp; reflexivity).
      rewrite Htruthy. cbn [negb].
      now rewrite toLowerCase_app, includes_app_r. }
    now rewrite string_append_assoc in Hr.
Qed.

Lemma add_keyword_twice_is_once_witness :
  addKeywordTo "Cinematic" "a fox " = "a fox, Cinematic" /\
  addKeywordTo "Cinematic" (addKeywordTo "Cinematic" "a fox ")
  = addKeywordTo "Cinematic" "a fox ".
Proof.
  split; [reflexivity |].
  apply (add_keyword_twice_is_once "Cinematic" "a fox "); [reflexivity | discriminate].
Defined.

Lemma omitEmpty_nonempty {A : Type} (l : list A) :
  l <> [] -> omitEmpty l = Some l.
Proof. destruct l; [intro H; now contradiction H | reflexivity]. Qed.

Lemma charDescription_not_blank (char : Character) :
  isBlank (charDescription char) = false.
Proof. reflexivity. Qed.

Lemma character_prompt_not_blank (char : Character) (st : PromptFormState) :
  isBlank (st_prompt (handleCharacterSelect char st)) = false.
Proof.
  assert (Hnew : isBlank (if truthy (trim (st_prompt st))
                          then (trim (st_prompt st) ++ LF ++ LF
                                ++ charDescription char)%string
                          else charDescription char) = false).
  { destruct (truthy (trim (st_prompt st))) eqn:Ht;
      [| apply charDescription_not_blank].
    rewrite isBlank_app.
    destruct (trim_head _ Ht) as (c & rest & -> & Hc).
    cbn [isBlank]. now rewrite Hc. }
  unfold handleCharacterSelect.
  destruct (avatar char); exact Hnew.
Qed.

(** X16: choosing a character always leaves a prompt that is not blank.
    When the character has an avatar and the form is in text-to-video, the
    form moves to references-to-video with the avatar as its last reference
    image and, the effect of the move having run, with the full model,
    landscape and 720p; the button is then enabled, and the request built
    from the form names the full model, landscape and 720p and lists every
    reference image with its own bytes and file type as an asset, the avatar
    last, before the style image. *)
Theorem character_with_avatar_is_submittable (char : Character)
    (st : PromptFormState) :
  isBlank (st_prompt (selectCharacter char st)) = false /\
  (forall img,
     avatar char = Some img ->
     st_generationMode st = TEXT_TO_VIDEO ->
     st_generationMode (selectCharacter char st) = REFERENCES_TO_VIDEO /\
     st_referenceImages (selectCharacter char st) = st_referenceImages st ++ [img] /\
     st_model (selectCharacter char st) = VEO /\
     st_aspectRatio (selectCharacter char st) = LANDSCAPE /\
     st_resolution (selectCharacter char st) = P720 /\
     isSubmitDisabled (selectCharacter char st) = false /\
     exists payload,
       buildPayload (handleSubmit (selectCharacter char st)) = Ok payload /\
       payload_model payload = VEO /\
       cfg_aspectRatio (payload_config payload) = Some LANDSCAPE /\
       cfg_resolution (payload_config payload) = P720 /\
       cfg_referenceImages (payload_config payload)
       = Some (map (fun i =>
                      {| image := {| imageBytes := base64 i;
                                     mimeType := file_type (file i) |};
                         referenceType := ASSET |})
                   (st_referenceImages st ++ [img])
               ++ match st_styleImage st with
                  | Some i =>
                      [ {| image := {| imageBytes := base64 i;
                                       mimeType := file_type (file i) |};
                           referenceType := STYLE |} ]
                  | None => []
                  end)).
Proof.
  pose proof (settle_keeps_prompt_and_media st (handleCharacterSelect char st))
    as (Hp & Hm & _ & _ & Hri & Hsi & _ & _ & _).
  fold (selectCharacter char st) in Hp, Hm, Hri, Hsi.
  pose proof (character_prompt_not_blank char st) as Hnb.
  split; [now rewrite Hp |].
  intros img Ha Hmode.
  assert (Hmode' : st_generationMode (handleCharacterSelect char st)
                   = REFERENCES_TO_VIDEO).
  { unfold handleCharacterSelect. rewrite Ha, Hmode. reflexivity. }
  assert (Hrefs : st_referenceImages (handleCharacterSelect char st)
                  = st_referenceImages st ++ [img]).
  { unfold handleCharacterSelect. rewrite Ha. reflexivity. }
  assert (Hstyle : st_styleImage (handleCharacterSelect char st) = st_styleImage st).
  { unfold handleCharacterSelect. rewrite Ha. reflexivity. }
  rewrite Hmode' in Hm. rewrite Hrefs in Hri. rewrite Hstyle in Hsi.
  assert (Hset : st_model (selectCharacter char st) = VEO /\
                 st_aspectRatio (selectCharacter char st) = LANDSCAPE /\
                 st_resolution (selectCharacter char st) = P720).
  { unfold selectCharacter, settle, modeEffect. rewrite Hmode', Hmode.
    cbn [mode_eqb]. repeat split. }
  destruct Hset as (Hmodel & Haspect & Hres).
  assert (Hne : st_referenceImages st ++ [img] <> [])
    by (destruct (st_referenceImages st); discriminate).
  split; [exact Hm |]. split; [exact Hri |]. split; [exact Hmodel |].
  split; [exact Haspect |]. split; [exact Hres |]. split.
  - unfold isSubmitDisabled, submitState.
    rewrite Hm, Hri, Hp, trim_truthy, Hnb. cbn [negb orb fst].
    destruct (st_referenceImages st ++ [img]); [now contradiction Hne | reflexivity].
  - unfold buildPayload. cbn [mode handleSubmit]. rewrite Hm.
    eexists. split; [reflexivity |].
    cbn [payload_model payload_config cfg_referenceImages cfg_aspectRatio
         cfg_resolution buildConfig].
    cbn [mode resolution aspectRatio handleSubmit]. rewrite Hm, Haspect, Hres.
    split; [| split; [reflexivity | split; [reflexivity |]]].
    + unfold selectModel. cbn [referenceImages handleSubmit]. rewrite Hri.
      destruct (st_referenceImages st ++ [img]); [now contradiction Hne | reflexivity].
    + rewrite buildReferenceImages_spec. cbn [mode handleSubmit].
      rewrite Hm. cbn [mode_eqb orb].
      unfold userReferences, styleEntry.
      cbn [referenceImages styleImage handleSubmit]. rewrite Hri, Hsi.
      rewrite omitEmpty_nonempty.
      * destruct (st_styleImage st); reflexivity.
      * intro Hl. apply app_eq_nil in Hl as [Hl _]. apply map_eq_nil in Hl.
        now contradiction Hne.
Qed.

Lemma character_with_avatar_is_submittable_witness :
  st_generationMode (selectCharacter sampleCharacter (blankForm EmptyString))
  = REFERENCES_TO_VIDEO /\
  st_model (selectCharacter sampleCharacter (blankForm EmptyString)) = VEO /\
  isSubmitDisabled (selectCharacter sampleCharacter (blankForm EmptyString)) = false.
Proof.
  destruct (proj2 (character_with_avatar_is_submittable sampleCharacter
                     (blankForm EmptyString))
              (sampleImage "samurai") eq_refl eq_refl)
    as (Hmode & _ & Hmodel & _ & _ & Henabled & _).
  split; [exact Hmode |]. split; [exact Hmodel | exact Henabled].
Defined.

(** X17: [handleSave] adds a character only when both the name and the
    description are not blank, and then the form is reset; the saved name
    and description are the trimmed inputs: not empty, and without white
    space at either end.  Otherwise nothing is added and the form stays as
    it is. *)
Theorem saved_character_is_trimmed (now : string) (form : CharacterForm) :
  (isBlank (newName form) = true \/ isBlank (newDescription form) = true ->
   handleSave now form = (None, form)) /\
  (isBlank (newName form) = false -> isBlank (newDescription form) = false ->
   exists char,
     handleSave now form
     = (Some char,
        {| isCreating := false; newName := EmptyString;
           newDescription := EmptyString; newAvatar := None |}) /\
     char_name char = trim (newName form) /\
     char_description char = trim (newDescription form) /\
     char_name char <> EmptyString /\ trim (char_name char) = char_name char /\
     char_description char <> EmptyString /\
     trim (char_description char) = char_description char /\
     avatar char = newAvatar form).
Proof.
  unfold handleSave. rewrite !trim_truthy, !negb_involutive. split.
  - intros [-> | ->]; [reflexivity | now rewrite orb_true_r].
  - intros Hn Hd. rewrite Hn, Hd. cbn [orb].
    eexists. split; [reflexivity |].
    cbn [char_name char_description avatar].
    repeat split; try apply trim_idempotent;
      apply truthy_nonempty; rewrite trim_truthy.
    + now rewrite Hn.
    + now rewrite Hd.
Qed.

Lemma saved_character_is_trimmed_witness :
  exists char,
    handleSave "1700000000000" samuraiForm
    = (Some char,
       {| isCreating := false; newName := EmptyString;
          newDescription := EmptyString; newAvatar := None |}) /\
    char_name char = "Cyber Samurai" /\
    char_description char = "red armour".
Proof.
  destruct (proj2 (saved_character_is_trimmed "1700000000000" samuraiForm)
              eq_refl eq_refl)
    as (char & Hsave & Hname & Hdesc & _).
  exists char. split; [exact Hsave |]. split; [exact Hname | exact Hdesc].
Defined.

(** * Properties of the file reading *)

Lemma split_without_separator (sep : ascii) (s : string) :
  occurs sep s = false -> split sep s = [s].
Proof.
  induction s as [| c s IH]; [reflexivity |].
  simpl. intro H. apply orb_false_iff in H as [Hc Hs].
  rewrite Hc, (IH Hs). reflexivity.
Qed.

Lemma split_at_first_separator (sep : ascii) (header rest : string) :
  occurs sep header = false ->
  split sep (header ++ String sep rest) = header :: split sep rest.
Proof.
  induction header as [| c header IH]; intro H.
  - simpl. now rewrite Ascii.eqb_refl.
  - simpl in H. apply orb_false_iff in H as [Hc Hs].
    simpl. rewrite Hc, (IH Hs). reflexivity.
Qed.

Lemma split_segments_clean (sep : ascii) (s : string) :
  split sep s <> [] /\ Forall (fun seg => occurs sep seg = false) (split sep s).
Proof.
  induction s as [| c s [IHne IH]]; [split; [discriminate | now repeat constructor] |].
  simpl. destruct (Ascii.eqb c sep) eqn:Hc.
  - split; [discriminate |]. now constructor.
  - destruct (split sep s) as [| seg segs]; [now contradiction IHne |].
    split; [discriminate |].
    inversion IH; subst. constructor; [| assumption].
    simpl. now rewrite Hc.
Qed.

(** What a converted file always satisfies. *)
Lemma fileToBase64_ok (readAsDataURL : File -> outcome string) (f : File)
    (img : ImageFile) :
  fileToBase64 readAsDataURL f = Ok img ->
  file img = f /\ base64 img <> EmptyString /\ occurs "," (base64 img) = false.
Proof.
  unfold fileToBase64.
  destruct (readAsDataURL f) as [result | e]; [| discriminate].
  destruct (nth_error (split "," result) 1) as [encoded |] eqn:Hn; [| discriminate].
  destruct (truthy encoded) eqn:Ht; [| discriminate].
  intro H; inversion H; subst img. cbn [file base64].
  repeat split.
  - now apply truthy_nonempty.
  - pose proof (proj2 (split_segments_clean "," result)) as Hall.
    rewrite Forall_forall in Hall. apply Hall.
    exact (nth_error_In _ _ Hn).
Qed.

(** X18: [fileToBase64] recovers the payload of a data URL.  When the
    reader loads a header without comma, a comma, and a payload that is not
    empty and has no comma, the file resolves to that very payload, next to
    the file itself.  A data URL without comma, or with nothing after its
    comma (an empty file), is rejected with the message about the failed
    read, and a reader error is passed on. *)
Theorem data_url_payload_round_trip (readAsDataURL : File -> outcome string)
    (f : File) :
  (forall header payload,
     readAsDataURL f = Ok (header ++ "," ++ payload)%string ->
     occurs "," header = false ->
     occurs "," payload = false ->
     payload <> EmptyString ->
     fileToBase64 readAsDataURL f = Ok {| file := f; base64 := payload |}) /\
  (forall result,
     readAsDataURL f = Ok result ->
     occurs "," result = false ->
     fileToBase64 readAsDataURL f
     = Throw {| message := "Failed to read file as base64." |}) /\
  (forall header,
     readAsDataURL f = Ok (header ++ ",")%string ->
     occurs "," header = false ->
     fileToBase64 readAsDataURL f
     = Throw {| message := "Failed to read file as base64." |}) /\
  (forall error,
     readAsDataURL f = Throw error ->
     fileToBase64 readAsDataURL f = Throw error).
Proof.
  unfold fileToBase64. split; [| split; [| split]].
  - intros header payload -> Hh Hp Hne.
    change (header ++ "," ++ payload)%string
      with (header ++ String "," payload)%string.
    rewrite (split_at_first_separator _ _ _ Hh), (split_without_separator _ _ Hp).
    cbn [nth_error]. apply truthy_nonempty in Hne. now rewrite Hne.
  - intros result -> Hr. now rewrite (split_without_separator _ _ Hr).
  - intros header -> Hh.
    change (header ++ ",")%string with (header ++ String "," EmptyString)%string.
    now rewrite (split_at_first_separator _ _ _ Hh).
  - now intros error ->.
Qed.

Lemma data_url_payload_round_trip_witness :
  fileToBase64 pngReader pngFile = Ok {| file := pngFile; base64 := "iVBORw0KGgo=" |} /\
  fileToBase64 emptyReader pngFile
  = Throw {| message := "Failed to read file as base64." |}.
Proof.
  split.
  - apply (proj1 (data_url_payload_round_trip pngReader pngFile)
             "data:image/png;base64" "iVBORw0KGgo=");
      [reflexivity | reflexivity | reflexivity | discriminate].
  - exact (proj1 (proj2 (proj2 (data_url_payload_round_trip emptyReader pngFile)))
             "data:application/octet-stream;base64" eq_refl eq_refl).
Defined.

(** X19: the upload widgets hand over encoded files only.  An image
    reaches [onSelect] only as the first chosen file together with a
    base64 text that is not empty; a failed read selects nothing.  On a drop,
    a dragged scene id wins whatever files come with it; a video is selected
    only when no scene id was dragged, from the first dropped file, when its
    type starts with [video/], and with a base64 text that is not empty. *)
Theorem uploads_select_encoded_files_only (readAsDataURL : File -> outcome string) :
  (forall files img,
     imageFileChange readAsDataURL files = Some img ->
     exists f others,
       files = f :: others /\ file img = f /\ base64 img <> EmptyString) /\
  (forall sceneId files,
     sceneId <> EmptyString ->
     videoDrop readAsDataURL sceneId files = SceneSelected sceneId) /\
  (forall sceneId files videoFile,
     videoDrop readAsDataURL sceneId files = VideoSelected videoFile ->
     sceneId = EmptyString /\
     exists f others,
       files = f :: others /\ vf_file videoFile = f /\
       String.prefix "video/" (file_type f) = true /\
       vf_base64 videoFile <> EmptyString).
Proof.
  split; [| split].
  - intros files img. unfold imageFileChange, fileToImageFile.
    destruct files as [| f others]; [discriminate |].
    destruct (fileToBase64 readAsDataURL f) as [converted | e] eqn:Hc;
      [| discriminate].
    intro H; inversion H; subst img.
    destruct (fileToBase64_ok _ _ _ Hc) as (Hf & Hne & _).
    now exists f, others.
  - intros sceneId files Hne. unfold videoDrop.
    apply truthy_nonempty in Hne. now rewrite Hne.
  - intros sceneId files videoFile. unfold videoDrop, fileToVideoFile.
    destruct sceneId as [| c sceneId]; [| discriminate]. cbn [truthy].
    destruct files as [| f others]; [discriminate |].
    destruct (String.prefix "video/" (file_type f)) eqn:Hp; [| discriminate].
    destruct (fileToBase64 readAsDataURL f) as [converted | e] eqn:Hc;
      [| discriminate].
    intro H; inversion H; subst videoFile. cbn [vf_file vf_base64].
    destruct (fileToBase64_ok _ _ _ Hc) as (Hf & Hne & _).
    split; [reflexivity |]. now exists f, others.
Qed.

Lemma uploads_select_encoded_files_only_witness :
  videoDrop pngReader "42" [mp4File] = SceneSelected "42" /\
  exists f others,
    [mp4File; pngFile] = f :: others /\
    vf_file {| vf_file := mp4File; vf_base64 := "iVBORw0KGgo=" |} = f /\
    String.prefix "video/" (file_type f) = true /\
    vf_base64 {| vf_file := mp4File; vf_base64 := "iVBORw0KGgo=" |} <> EmptyString.
Proof.
  split.
  - apply (proj1 (proj2 (uploads_select_encoded_files_only pngReader))).
    discriminate.
  - exact (proj2 (proj2 (proj2 (uploads_select_encoded_files_only pngReader))
                    EmptyString [mp4File; pngFile]
                    {| vf_file := mp4File; vf_base64 := "iVBORw0KGgo=" |}
                    eq_refl)).
Defined.
